(** * protoc-gen-twirp_ts: the model builder of [generator.go]

    A shallow embedding of the Go generator: the string helpers it calls,
    the descriptor tree it reads, the template values it builds, the
    single pass of [generate] and the emission loop, followed by the
    properties of the specification that concern them.

    Go strings are byte sequences; they are modelled by [string], whose
    characters are the 256 [ascii] values.  Slices are lists. *)

From Stdlib Require Import Ascii String ZArith Lia Permutation.
From stdpp Require Import base option list strings gmap fin_maps.

Local Open Scope string_scope.
Local Open Scope list_scope.
Local Set Warnings "-clear-no-such-hyp".

(** ** The Go standard library, as far as the generator calls it *)

Module Strings.

(** [strings.Split(s, sep)] for a one-byte separator, the only kind the
    generator passes.  The result is never empty: [Split("", sep)] is
    the one-element slice holding the empty string. *)
Fixpoint Split (s : string) (sep : ascii) : list string :=
  match s with
  | EmptyString => [""]
  | String a s' =>
      if Ascii.eqb a sep then "" :: Split s' sep
      else match Split s' sep with
           | p :: ps => String a p :: ps
           | [] => [String a ""]
           end
  end.

(** [strings.SplitN(s, sep, n)] for a one-byte separator and [n >= 0]:
    at most [n] parts, the last one being the unsplit remainder. *)
Fixpoint SplitN (s : string) (sep : ascii) (n : nat) {struct s} : list string :=
  match n with
  | 0 => []
  | 1 => [s]
  | S (S _ as n') =>
      match s with
      | EmptyString => [""]
      | String a s' =>
          if Ascii.eqb a sep then "" :: SplitN s' sep n'
          else match SplitN s' sep n with
               | p :: ps => String a p :: ps
               | [] => [String a ""]
               end
      end
  end.

(** [strings.Join(elems, sep)]. *)
Fixpoint Join (elems : list string) (sep : string) : string :=
  match elems with
  | [] => ""
  | [e] => e
  | e :: es => e +:+ sep +:+ Join es sep
  end.

(** [strings.Repeat(s, count)]. *)
Fixpoint Repeat (s : string) (count : nat) : string :=
  match count with
  | 0 => ""
  | S n => s +:+ Repeat s n
  end.

(** [strings.HasSuffix] and [strings.TrimSuffix]. *)
Definition HasSuffix (s suffix : string) : bool :=
  (String.length suffix <=? String.length s)%nat &&
  String.eqb (String.substring (String.length s - String.length suffix)
                               (String.length suffix) s) suffix.

Definition TrimSuffix (s suffix : string) : string :=
  if HasSuffix s suffix
  then String.substring 0 (String.length s - String.length suffix) s
  else s.

(** The replacement character U+FFFD in UTF-8. *)
Definition RuneError : string :=
  String (ascii_of_nat 239) (String (ascii_of_nat 191) (String (ascii_of_nat 189) "")).

(** [strings.ToUpper] and [strings.ToLower] on a string of one byte, the
    only way the generator calls them ([s[0:1]]).  An ASCII byte takes
    the fast path; a byte of 0x80 and above is no valid UTF-8 on its
    own and is mapped to the replacement character. *)
Definition ToUpper1 (c : ascii) : string :=
  let n := nat_of_ascii c in
  if (128 <=? n)%nat then RuneError
  else if (97 <=? n)%nat && (n <=? 122)%nat then String (ascii_of_nat (n - 32)) ""
  else String c "".

Definition ToLower1 (c : ascii) : string :=
  let n := nat_of_ascii c in
  if (128 <=? n)%nat then RuneError
  else if (65 <=? n)%nat && (n <=? 90)%nat then String (ascii_of_nat (n + 32)) ""
  else String c "".

End Strings.

Module Path.

(** One element of [path.Clean]'s scan, on the stack of elements kept so
    far (top first): empty and [.] elements are dropped, [..] removes
    the last real element, stays when the path is not rooted and there
    is nothing to remove, and is dropped at the root. *)
Definition clean_step (rooted : bool) (stack : list string) (e : string) : list string :=
  if String.eqb e "" || String.eqb e "." then stack
  else if String.eqb e ".." then
    match stack with
    | top :: rest => if String.eqb top ".." then e :: stack else rest
    | [] => if rooted then [] else [e]
    end
  else e :: stack.

(** [path.Clean]. *)
Definition Clean (p : string) : string :=
  match p with
  | EmptyString => "."
  | String a _ =>
      let rooted := Ascii.eqb a "/" in
      let kept := rev (fold_left (clean_step rooted) (Strings.Split p "/") []) in
      match kept, rooted with
      | [], false => "."
      | _, false => Strings.Join kept "/"
      | _, true => "/" +:+ Strings.Join kept "/"
      end
  end.

(** [path.Join]: leading empty elements are ignored, the rest is joined
    with slashes and cleaned; all elements empty gives the empty string. *)
Fixpoint Join (elem : list string) : string :=
  match elem with
  | [] => ""
  | e :: es => if String.eqb e "" then Join es else Clean (Strings.Join elem "/")
  end.

(** Drop the trailing slashes of a path given in reverse. *)
Fixpoint drop_slashes (r : list ascii) : list ascii :=
  match r with
  | a :: r' => if Ascii.eqb a "/" then drop_slashes r' else r
  | [] => []
  end.

(** The characters of a reversed path up to its first slash. *)
Fixpoint until_slash (r : list ascii) : list ascii :=
  match r with
  | a :: r' => if Ascii.eqb a "/" then [] else a :: until_slash r'
  | [] => []
  end.

(** [path.Base]. *)
Definition Base (p : string) : string :=
  match p with
  | EmptyString => "."
  | _ =>
      match rev (until_slash (drop_slashes (rev (list_ascii_of_string p)))) with
      | [] => "/"
      | l => string_of_list_ascii l
      end
  end.

(** [path.Ext], scanning from the end: the suffix starting at the last
    dot of the last element, empty when that element has no dot.
    [ext_rev r acc] has the scanned characters in [acc]. *)
Fixpoint ext_rev (r : list ascii) (acc : list ascii) : list ascii :=
  match r with
  | a :: r' =>
      if Ascii.eqb a "/" then []
      else if Ascii.eqb a "." then a :: acc
      else ext_rev r' (a :: acc)
  | [] => []
  end.

Definition Ext (p : string) : string :=
  string_of_list_ascii (ext_rev (rev (list_ascii_of_string p)) []).

End Path.

(** ** The descriptor tree ([descriptor.proto], read through its getters)

    Optional scalar fields are read with the generated getters, which give
    the zero value for an absent field; only [Label] is tested for
    presence by the generator and is kept as an [option]. *)

Inductive FieldDescriptorProto_Type :=
| TYPE_DOUBLE | TYPE_FLOAT | TYPE_INT64 | TYPE_UINT64 | TYPE_INT32
| TYPE_FIXED64 | TYPE_FIXED32 | TYPE_BOOL | TYPE_STRING | TYPE_GROUP
| TYPE_MESSAGE | TYPE_BYTES | TYPE_UINT32 | TYPE_ENUM | TYPE_SFIXED32
| TYPE_SFIXED64 | TYPE_SINT32 | TYPE_SINT64.

Inductive FieldDescriptorProto_Label :=
| LABEL_OPTIONAL | LABEL_REQUIRED | LABEL_REPEATED.

Record FieldDescriptorProto := {
  field_Name : string;
  field_Type : FieldDescriptorProto_Type;
  field_TypeName : string;
  field_Label : option FieldDescriptorProto_Label
}.

Record EnumValueDescriptorProto := {
  value_Name : string;
  value_Number : Z
}.

Record EnumDescriptorProto := {
  enum_Name : string;
  enum_Value : list EnumValueDescriptorProto
}.

(** A message descriptor nests message descriptors. *)
Local Unset Elimination Schemes.
Inductive DescriptorProto := {
  message_Name : string;
  message_Field : list FieldDescriptorProto;
  message_NestedType : list DescriptorProto;
  message_EnumType : list EnumDescriptorProto
}.

Local Set Elimination Schemes.

Record MethodDescriptorProto := {
  method_Name : string;
  method_InputType : string;
  method_OutputType : string
}.

Record ServiceDescriptorProto := {
  service_Name : string;
  service_Method : list MethodDescriptorProto
}.

Record FileDescriptorProto := {
  file_Name : string;
  file_Package : string;
  file_EnumType : list EnumDescriptorProto;
  file_MessageType : list DescriptorProto;
  file_Service : list ServiceDescriptorProto
}.

Record CodeGeneratorRequest := {
  ProtoFile : list FileDescriptorProto
}.

Record CodeGeneratorResponse_File := {
  rf_Name : string;
  rf_Content : string
}.

Record CodeGeneratorResponse := {
  File : list CodeGeneratorResponse_File
}.

(** ** The template values *)

Record importValues := {
  iv_Name : string;
  iv_Path : string
}.

Record enumKeyVal := {
  kv_Name : string;
  kv_Value : Z
}.

Record enumValues := {
  en_Name : string;
  en_Values : list enumKeyVal
}.

(** [IsEnum] is set by [generate]. *)
Record fieldValues := {
  fv_Name : string;
  fv_Field : string;
  fv_Type : string;
  fv_IsEnum : bool;
  fv_IsRepeated : bool
}.

Local Unset Elimination Schemes.
Inductive messageValues := {
  mv_Name : string;
  mv_Interface : string;
  mv_JSONInterface : string;
  mv_Fields : list fieldValues;
  mv_NestedTypes : list messageValues;
  mv_NestedEnums : list enumValues
}.

Local Set Elimination Schemes.

Record serviceMethodValues := {
  sm_Name : string;
  sm_InputType : string;
  sm_OutputType : string
}.

Record serviceValues := {
  sv_Package : string;
  sv_Name : string;
  sv_Interface : string;
  sv_Methods : list serviceMethodValues
}.

(** [Output] and [RelativeImportBase] are set by [generate]; [Imports] is a
    Go map from string to import values. *)
Record protoFile := {
  pf_Output : string;
  pf_RelativeImportBase : string;
  pf_Imports : gmap string importValues;
  pf_Messages : list messageValues;
  pf_Services : list serviceValues;
  pf_Enums : list enumValues
}.

(** [exportValues] as [generate] fills it. *)
Record exportValues := {
  ev_Exports : list string
}.

(** Updates of the template values, as [generate] performs them in place. *)

Definition pf_set_Imports (pf : protoFile) (imports : gmap string importValues) : protoFile :=
  {| pf_Output := pf_Output pf;
     pf_RelativeImportBase := pf_RelativeImportBase pf;
     pf_Imports := imports;
     pf_Messages := pf_Messages pf;
     pf_Services := pf_Services pf;
     pf_Enums := pf_Enums pf |}.

Definition pf_append_Enum (pf : protoFile) (v : enumValues) : protoFile :=
  {| pf_Output := pf_Output pf;
     pf_RelativeImportBase := pf_RelativeImportBase pf;
     pf_Imports := pf_Imports pf;
     pf_Messages := pf_Messages pf;
     pf_Services := pf_Services pf;
     pf_Enums := pf_Enums pf ++ [v] |}.

Definition pf_append_Message (pf : protoFile) (v : messageValues) : protoFile :=
  {| pf_Output := pf_Output pf;
     pf_RelativeImportBase := pf_RelativeImportBase pf;
     pf_Imports := pf_Imports pf;
     pf_Messages := pf_Messages pf ++ [v];
     pf_Services := pf_Services pf;
     pf_Enums := pf_Enums pf |}.

Definition pf_append_Service (pf : protoFile) (v : serviceValues) : protoFile :=
  {| pf_Output := pf_Output pf;
     pf_RelativeImportBase := pf_RelativeImportBase pf;
     pf_Imports := pf_Imports pf;
     pf_Messages := pf_Messages pf;
     pf_Services := pf_Services pf ++ [v];
     pf_Enums := pf_Enums pf |}.

Definition mv_append_Field (v : messageValues) (f : fieldValues) : messageValues :=
  {| mv_Name := mv_Name v;
     mv_Interface := mv_Interface v;
     mv_JSONInterface := mv_JSONInterface v;
     mv_Fields := mv_Fields v ++ [f];
     mv_NestedTypes := mv_NestedTypes v;
     mv_NestedEnums := mv_NestedEnums v |}.

Definition sv_append_Method (v : serviceValues) (m : serviceMethodValues) : serviceValues :=
  {| sv_Package := sv_Package v;
     sv_Name := sv_Name v;
     sv_Interface := sv_Interface v;
     sv_Methods := sv_Methods v ++ [m] |}.

(** ** The pure helpers of [generator.go] *)

Definition sameFile (a b : FileDescriptorProto) : bool :=
  String.eqb (file_Name a) (file_Name b).

Definition fullTypeName (fd : FileDescriptorProto) (typeName : string) : string :=
  "." +:+ file_Package fd +:+ "." +:+ typeName.

Definition isRepeated (field : FieldDescriptorProto) : bool :=
  match field_Label field with
  | Some LABEL_REPEATED => true
  | _ => false
  end.

(** [p[len(p)-1]] cannot fail: [SplitN] with a count of 3 gives at least
    one part (lemma [SplitN_nonempty]). *)
Definition removePkg (s : string) : string :=
  let p := Strings.SplitN s "." 3 in
  let c := Strings.Split (List.last p "") "." in
  Strings.Join c "_".

(** [s[0:1]] and [s[1:]]: the first slice is out of range on the empty
    string. *)
Definition slice_0_1 (s : string) : option ascii :=
  match s with
  | String a _ => Some a
  | EmptyString => None
  end.

Definition slice_from_1 (s : string) : string :=
  match s with
  | String _ s' => s'
  | EmptyString => ""
  end.

(** The loop of [camelCase] over the parts, [first] telling whether the
    index is 0. [None] is the run-time panic of the slice expression. *)
Fixpoint camelCase_parts (first : bool) (parts : list string) : option (list string) :=
  match parts with
  | [] => Some []
  | p :: ps =>
      p' ← (if first then Some p
            else a ← slice_0_1 p; Some (Strings.ToUpper1 a +:+ slice_from_1 p));
      ps' ← camelCase_parts false ps;
      Some (p' :: ps')
  end.

Definition camelCase (s : string) : option string :=
  parts ← camelCase_parts true (Strings.Split s "_");
  Some (Strings.Join parts "").

Definition tsImportPath (fd : FileDescriptorProto) : string :=
  Path.Join (Strings.Split (file_Package fd) ".").

Definition relativeImportBase (fd : FileDescriptorProto) : string :=
  Strings.Repeat "../" (length (Strings.Split (tsImportPath fd) "/")).

Definition tsFileName (fd : FileDescriptorProto) : string :=
  let filename :=
    Strings.TrimSuffix (Path.Base (file_Name fd)) (Path.Ext (file_Name fd)) +:+ ".ts" in
  Path.Join [tsImportPath fd; filename].

Definition singularFieldType (m : DescriptorProto) (f : FieldDescriptorProto) : string :=
  match field_Type f with
  | TYPE_DOUBLE | TYPE_FIXED32 | TYPE_FIXED64 | TYPE_INT32 | TYPE_INT64
  | TYPE_UINT32 | TYPE_UINT64 => "number"
  | TYPE_ENUM => removePkg (field_TypeName f)
  | TYPE_STRING => "string"
  | TYPE_BOOL => "boolean"
  | TYPE_MESSAGE =>
      let name := field_TypeName f in
      if String.eqb name ".google.protobuf.Timestamp" then "Date"
      else removePkg name
  | _ => "string"
  end.

Definition fieldType (f : fieldValues) : string :=
  let t := fv_Type f in
  let t := if String.eqb t "Date" then "string" else t in
  if fv_IsRepeated f then t +:+ "[]" else t.

(** ** The helpers of the templates *)

Definition typeToInterface (typeName : string) : string := "I" +:+ typeName.

Definition typeToJSONInterface (typeName : string) : string :=
  "I" +:+ typeName +:+ "JSON".

Definition methodName (method : string) : option string :=
  a ← slice_0_1 method; Some (Strings.ToLower1 a +:+ slice_from_1 method).

(** The two interface blocks of [messageTemplate].  In the public
    interface a field is rendered as [{{.Field}}?: {{. | fieldType}}], in
    the JSON interface as [{{$v.Name}}?: {{$v | fieldType}}]; every field
    line follows a line break and two spaces. *)
Definition interfaceField (f : fieldValues) : string :=
  fv_Field f +:+ "?: " +:+ fieldType f.

Definition jsonInterfaceField (f : fieldValues) : string :=
  fv_Name f +:+ "?: " +:+ fieldType f.

Definition nl : string := String (ascii_of_nat 10) "".

Definition messageTemplate_interface (mv : messageValues) : string :=
  "export interface " +:+ mv_Interface mv +:+ " {" +:+
  match mv_Fields mv with
  | [] => ""
  | fs => String.concat "" (map (fun f => nl +:+ "  " +:+ interfaceField f) fs) +:+ nl +:+ "  "
  end +:+
  nl +:+ "  toJSON?(): object" +:+ nl +:+ "}".

Definition messageTemplate_jsonInterface (mv : messageValues) : string :=
  "export interface " +:+ mv_JSONInterface mv +:+ " {" +:+
  String.concat "" (map (fun f => nl +:+ "  " +:+ jsonInterfaceField f) (mv_Fields mv)) +:+
  nl +:+ "}".

(** ** Effects: the registry, the log, panics and fatal errors

    [generate] threads two pieces of state, the resolver it fills and
    queries and the process log, and can stop in three ways. *)

Inductive Failure :=
| SliceBoundsOutOfRange
| DuplicateDeclaration (fullName : string)
| CouldNotCompileTemplate.

Inductive result (A : Type) :=
| Ok (a : A)
| Err (e : Failure).
Arguments Ok {A} a.
Arguments Err {A} e.

Record State := {
  resolver : gmap string FileDescriptorProto;
  logged : list string
}.

Definition M (A : Type) : Type := State -> result (A * State).

Definition ret {A} (a : A) : M A := fun st => Ok (a, st).

Definition bind {A B} (m : M A) (k : A -> M B) : M B :=
  fun st =>
    match m st with
    | Ok (a, st') => k a st'
    | Err e => Err e
    end.

Notation "'let*' x ':=' m 'in' k" := (bind m (fun x => k))
  (at level 10, x name, m at level 100, k at level 200).
Notation "'let*' ' p ':=' m 'in' k" := (bind m (fun x => match x with p => k end))
  (at level 10, p pattern, m at level 100, k at level 200).

Definition fail {A} (e : Failure) : M A := fun _ => Err e.

Definition get_resolver : M (gmap string FileDescriptorProto) :=
  fun st => Ok (resolver st, st).

(** [log.Printf]: one more line in the log. *)
Definition log_Printf (line : string) : M unit :=
  fun st => Ok (tt, {| resolver := resolver st; logged := logged st ++ [line] |}).

(** A slice expression that may panic. *)
Definition or_panic {A} (o : option A) : M A :=
  match o with
  | Some a => ret a
  | None => fail SliceBoundsOutOfRange
  end.

(** [if err != nil { log.Fatal(...) }] after a [Compile]. *)
Definition or_fatal {A} (o : option A) : M A :=
  match o with
  | Some a => ret a
  | None => fail CouldNotCompileTemplate
  end.

(** A [for ... range] loop over a slice with an accumulator. *)
Fixpoint foldM {A B} (f : B -> A -> M B) (l : list A) (b : B) : M B :=
  match l with
  | [] => ret b
  | a :: l' => let* b' := f b a in foldM f l' b'
  end.

(** Modelled from the spec: the type [dependencyResolver] and its method
    [Set] are not in src/.  The registry binds a fully-qualified schema
    name ([fullTypeName]) to the file that declared it; declaring a name
    twice is a fatal error. *)
Definition resolver_Set (fd : FileDescriptorProto) (messageName : string) : M unit :=
  fun st =>
    let key := fullTypeName fd messageName in
    match resolver st !! key with
    | Some _ => Err (DuplicateDeclaration key)
    | None => Ok (tt, {| resolver := <[key := fd]> (resolver st); logged := logged st |})
    end.

(** Modelled from the spec: [dependencyResolver.Resolve] is not in src/.
    It looks up which file declared a fully-qualified name; [None] is the
    error returned for a name that is not in the registry. *)
Definition resolver_Resolve (d : gmap string FileDescriptorProto) (typeName : string)
  : option FileDescriptorProto :=
  d !! typeName.

Definition nested_warning : string := "warning: nested messages are not supported yet".

Section Generator.

(** Parts of the repository that are not in src/ and that the pass only
    calls: [dependencyResolver.TypeName], the entry that [AddImport]
    stores, the two constants of the run-time file, and the rendering of
    a file model and of an index ([Compile], [None] for an error). *)
Variable resolver_TypeName :
  gmap string FileDescriptorProto -> FileDescriptorProto -> string -> string.
Variable importEntry :
  option importValues -> protoFile -> FileDescriptorProto -> string -> importValues.
Variables twirpFileName twirpSource : string.
Variable protoFile_Compile : protoFile -> option string.
Variable exportValues_Compile : exportValues -> option string.

(** Modelled from the spec: [protoFile.AddImport] is not in src/.  An
    import requirement is keyed by the output path of the file owning
    the type, and several types of one file collapse into the one entry
    of that key.  What the entry holds is left to [importEntry], which
    sees the entry already there. *)
Definition AddImport (pf : protoFile) (fp : FileDescriptorProto) (typeName : string)
  : protoFile :=
  let key := tsFileName fp in
  pf_set_Imports pf
    (<[key := importEntry (pf_Imports pf !! key) pf fp typeName]> (pf_Imports pf)).

(** [fp, err := resolver.Resolve(name); if err == nil { if !sameFile(fp, file)
    { pfile.AddImport(fp, typeName) } }]. *)
Definition importIfForeign (d : gmap string FileDescriptorProto) (file : FileDescriptorProto)
    (pfile : protoFile) (name typeName : string) : protoFile :=
  match resolver_Resolve d name with
  | Some fp => if negb (sameFile fp file) then AddImport pfile fp typeName else pfile
  | None => pfile
  end.

Definition enumKeyVals (values : list EnumValueDescriptorProto) : list enumKeyVal :=
  fold_left
    (fun acc value => acc ++ [{| kv_Name := value_Name value; kv_Value := value_Number value |}])
    values [].

(** The body of the loop "Add enum". *)
Definition addEnum (file : FileDescriptorProto) (pfile : protoFile)
    (enum : EnumDescriptorProto) : M protoFile :=
  let* _ := resolver_Set file (enum_Name enum) in
  let v := {| en_Name := enum_Name enum; en_Values := enumKeyVals (enum_Value enum) |} in
  ret (pf_append_Enum pfile v).

(** The loop "Add nested enums". *)
Definition nestedEnums (message : DescriptorProto) : list enumValues :=
  fold_left
    (fun acc enum =>
       acc ++ [{| en_Name := message_Name message +:+ "_" +:+ enum_Name enum;
                  en_Values := enumKeyVals (enum_Value enum) |}])
    (message_EnumType message) [].

(** The body of the loop "Add message fields"; the accumulator is the
    file model and the message model under construction. *)
Definition addField (file : FileDescriptorProto) (message : DescriptorProto)
    (acc : protoFile * messageValues) (field : FieldDescriptorProto)
  : M (protoFile * messageValues) :=
  let '(pfile, v) := acc in
  let* d := get_resolver in
  let typeName := resolver_TypeName d file (singularFieldType message field) in
  let pfile := importIfForeign d file pfile (field_TypeName field) typeName in
  let* cased := or_panic (camelCase (field_Name field)) in
  ret (pfile,
       mv_append_Field v
         {| fv_Name := field_Name field;
            fv_Field := cased;
            fv_Type := typeName;
            fv_IsEnum := match field_Type field with TYPE_ENUM => true | _ => false end;
            fv_IsRepeated := isRepeated field |}).

(** The body of the loop "Add messages". *)
Definition addMessage (file : FileDescriptorProto) (pfile : protoFile)
    (message : DescriptorProto) : M protoFile :=
  let name := message_Name message in
  let tsInterface := typeToInterface name in
  let jsonInterface := typeToJSONInterface name in
  let* _ := resolver_Set file name in
  let* _ := resolver_Set file tsInterface in
  let* _ := resolver_Set file jsonInterface in
  let* _ := (if (0 <? length (message_NestedType message))%nat
             then log_Printf nested_warning else ret tt) in
  let v := {| mv_Name := name;
              mv_Interface := tsInterface;
              mv_JSONInterface := jsonInterface;
              mv_Fields := [];
              mv_NestedTypes := [];
              mv_NestedEnums := nestedEnums message |} in
  let* '(pfile, v) := foldM (addField file message) (message_Field message) (pfile, v) in
  ret (pf_append_Message pfile v).

(** The body of the loop over the methods of a service. *)
Definition addMethod (file : FileDescriptorProto)
    (acc : protoFile * serviceValues) (method : MethodDescriptorProto)
  : M (protoFile * serviceValues) :=
  let '(pfile, v) := acc in
  let* d := get_resolver in
  let inputType := resolver_TypeName d file (removePkg (method_InputType method)) in
  let outputType := resolver_TypeName d file (removePkg (method_OutputType method)) in
  let pfile := importIfForeign d file pfile (method_InputType method) inputType in
  let pfile := importIfForeign d file pfile (method_OutputType method) outputType in
  ret (pfile,
       sv_append_Method v
         {| sm_Name := method_Name method;
            sm_InputType := inputType;
            sm_OutputType := outputType |}).

(** The body of the loop "Add services". *)
Definition addService (file : FileDescriptorProto) (pfile : protoFile)
    (service : ServiceDescriptorProto) : M protoFile :=
  let* _ := resolver_Set file (service_Name service) in
  let v := {| sv_Package := file_Package file;
              sv_Name := service_Name service;
              sv_Interface := typeToInterface (service_Name service);
              sv_Methods := [] |} in
  let* '(pfile, v) := foldM (addMethod file) (service_Method service) (pfile, v) in
  ret (pf_append_Service pfile v).

(** The model of one input file: the body of the first loop of
    [generate] without the bookkeeping of [outputFiles]. *)
Definition buildFile (file : FileDescriptorProto) : M protoFile :=
  let pfile := {| pf_Output := tsFileName file;
                  pf_RelativeImportBase := relativeImportBase file;
                  pf_Imports := ∅;
                  pf_Messages := [];
                  pf_Services := [];
                  pf_Enums := [] |} in
  let* pfile := foldM (addEnum file) (file_EnumType file) pfile in
  let* pfile := foldM (addMessage file) (file_MessageType file) pfile in
  foldM (addService file) (file_Service file) pfile.

(** The body of the first loop.  The source appends the pointer to the
    still empty model and fills it afterwards; what the slice holds at
    emission is the filled model. *)
Definition addFile (outputFiles : gmap string (list protoFile))
    (file : FileDescriptorProto) : M (gmap string (list protoFile)) :=
  let* pfile := buildFile file in
  ret (<[tsImportPath file := default [] (outputFiles !! tsImportPath file) ++ [pfile]]>
         outputFiles).

(** The inner loop of the emission: one generated file per model. *)
Definition emitFile (acc : exportValues * list CodeGeneratorResponse_File)
    (pf : protoFile) : M (exportValues * list CodeGeneratorResponse_File) :=
  let '(ev, files) := acc in
  let ev := {| ev_Exports :=
                 ev_Exports ev ++ [Strings.TrimSuffix (Path.Base (pf_Output pf)) ".ts"] |} in
  let* content := or_fatal (protoFile_Compile pf) in
  ret (ev, files ++ [{| rf_Name := pf_Output pf; rf_Content := content |}]).

(** The body of the loop over [outputFiles]: the files of one package
    directory, then its index. *)
Definition emitPackage (files : list CodeGeneratorResponse_File)
    (entry : string * list protoFile) : M (list CodeGeneratorResponse_File) :=
  let '(tsPath, pff) := entry in
  let* '(ev, files) := foldM emitFile pff ({| ev_Exports := [] |}, files) in
  let* content := or_fatal (exportValues_Compile ev) in
  let name := Path.Join [tsPath; "index.ts"] in
  ret (files ++ [{| rf_Name := name; rf_Content := content |}]).

(** [generate].  [outputFiles] is a Go map and the second loop ranges
    over it; the order of that iteration is chosen by the run-time and
    enters the model as [range], which lists the entries of a map in
    some order. *)
Definition generate (range : gmap string (list protoFile) -> list (string * list protoFile))
    (req : CodeGeneratorRequest) : M CodeGeneratorResponse :=
  let files := [{| rf_Name := twirpFileName; rf_Content := twirpSource |}] in
  let* outputFiles := foldM addFile (ProtoFile req) ∅ in
  let* files := foldM emitPackage (range outputFiles) files in
  let* _ := foldM (fun _ f => log_Printf ("wrote: " +:+ rf_Name f)) files tt in
  ret {| File := files |}.

(** An iteration order that a Go map can show. *)
Definition map_order (range : gmap string (list protoFile) -> list (string * list protoFile))
  : Prop :=
  forall m, Permutation (range m) (map_to_list m).

Definition initial_state : State := {| resolver := ∅; logged := [] |}.

(** The runs of the generator on a request: the response and the log of
    a run that returns. *)
Definition generates (req : CodeGeneratorRequest)
    (res : CodeGeneratorResponse) (log : list string) : Prop :=
  exists range st,
    map_order range /\
    generate range req initial_state = Ok (res, st) /\
    logged st = log.

End Generator.

(** ** Predicates on the input used by the statements *)

(** A string without the byte [c]. *)
Fixpoint no_byte (c : ascii) (s : string) : bool :=
  match s with
  | EmptyString => true
  | String a s' => negb (Ascii.eqb a c) && no_byte c s'
  end.

(** The schema-local names that the pass declares for a file, in the
    order of the calls of [resolver.Set]. *)
Definition messageNames (m : DescriptorProto) : list string :=
  [message_Name m; typeToInterface (message_Name m); typeToJSONInterface (message_Name m)].

Definition declaredNames (file : FileDescriptorProto) : list string :=
  map enum_Name (file_EnumType file) ++
  concat (map messageNames (file_MessageType file)) ++
  map service_Name (file_Service file).

Definition declaredFullNames (file : FileDescriptorProto) : list string :=
  map (fullTypeName file) (declaredNames file).

(** Every field name of the file goes through [camelCase] without a panic. *)
Definition fieldNamesCased (file : FileDescriptorProto) : Prop :=
  Forall (fun m => Forall (fun f => is_Some (camelCase (field_Name f))) (message_Field m))
         (file_MessageType file).

(** The messages of a file that hold nested messages. *)
Definition hasNestedType (m : DescriptorProto) : bool :=
  (0 <? length (message_NestedType m))%nat.

(** ** What the loops of the pass compute, in closed form *)

Definition enumKeyValOf (value : EnumValueDescriptorProto) : enumKeyVal :=
  {| kv_Name := value_Name value; kv_Value := value_Number value |}.

Definition enumModel (enum : EnumDescriptorProto) : enumValues :=
  {| en_Name := enum_Name enum; en_Values := map enumKeyValOf (enum_Value enum) |}.

Definition nestedEnumModel (message : DescriptorProto) (enum : EnumDescriptorProto)
  : enumValues :=
  {| en_Name := message_Name message +:+ "_" +:+ enum_Name enum;
     en_Values := map enumKeyValOf (enum_Value enum) |}.

(** The state after a successful [resolver.Set] and after a [log.Printf]. *)
Definition declare (fd : FileDescriptorProto) (name : string) (st : State) : State :=
  {| resolver := <[fullTypeName fd name := fd]> (resolver st); logged := logged st |}.

Definition log_line (line : string) (st : State) : State :=
  {| resolver := resolver st; logged := logged st ++ [line] |}.

(** The names in [names], none of them declared yet, can be declared one
    after the other. *)
Definition fresh (st : State) (names : list string) : Prop :=
  NoDup names /\ Forall (fun n => resolver st !! n = None) names.

Section ClosedForm.

Variable resolver_TypeName :
  gmap string FileDescriptorProto -> FileDescriptorProto -> string -> string.
Variable importEntry :
  option importValues -> protoFile -> FileDescriptorProto -> string -> importValues.

(** The model of a field, under the registry [d] of the moment. *)
Definition fieldValuesOf (d : gmap string FileDescriptorProto) (file : FileDescriptorProto)
    (message : DescriptorProto) (field : FieldDescriptorProto) : option fieldValues :=
  cased ← camelCase (field_Name field);
  Some {| fv_Name := field_Name field;
          fv_Field := cased;
          fv_Type := resolver_TypeName d file (singularFieldType message field);
          fv_IsEnum := match field_Type field with TYPE_ENUM => true | _ => false end;
          fv_IsRepeated := isRepeated field |}.

(** The file model after the import check of a field. *)
Definition fieldImport (d : gmap string FileDescriptorProto) (file : FileDescriptorProto)
    (message : DescriptorProto) (pfile : protoFile) (field : FieldDescriptorProto)
  : protoFile :=
  importIfForeign importEntry d file pfile (field_TypeName field)
    (resolver_TypeName d file (singularFieldType message field)).

Definition methodValuesOf (d : gmap string FileDescriptorProto) (file : FileDescriptorProto)
    (method : MethodDescriptorProto) : serviceMethodValues :=
  {| sm_Name := method_Name method;
     sm_InputType := resolver_TypeName d file (removePkg (method_InputType method));
     sm_OutputType := resolver_TypeName d file (removePkg (method_OutputType method)) |}.

(** The file model after the two import checks of a method. *)
Definition methodImport (d : gmap string FileDescriptorProto) (file : FileDescriptorProto)
    (pfile : protoFile) (method : MethodDescriptorProto) : protoFile :=
  importIfForeign importEntry d file
    (importIfForeign importEntry d file pfile (method_InputType method)
       (resolver_TypeName d file (removePkg (method_InputType method))))
    (method_OutputType method)
    (resolver_TypeName d file (removePkg (method_OutputType method))).

(** The model of a message whose fields have the models [fields]. *)
Definition messageModel (message : DescriptorProto) (fields : list fieldValues)
  : messageValues :=
  {| mv_Name := message_Name message;
     mv_Interface := typeToInterface (message_Name message);
     mv_JSONInterface := typeToJSONInterface (message_Name message);
     mv_Fields := fields;
     mv_NestedTypes := [];
     mv_NestedEnums := map (nestedEnumModel message) (message_EnumType message) |}.

Definition serviceModel (d : gmap string FileDescriptorProto) (file : FileDescriptorProto)
    (service : ServiceDescriptorProto) : serviceValues :=
  {| sv_Package := file_Package file;
     sv_Name := service_Name service;
     sv_Interface := typeToInterface (service_Name service);
     sv_Methods := map (methodValuesOf d file) (service_Method service) |}.

(** The state in which the fields of a message are processed: its three
    names declared. *)
Definition declareMessage (file : FileDescriptorProto) (message : DescriptorProto)
    (st : State) : State :=
  declare file (typeToJSONInterface (message_Name message))
    (declare file (typeToInterface (message_Name message))
       (declare file (message_Name message) st)).

(** The model of a message of the file, its fields modelled under some
    registry, and the model of a service. *)
Definition models_message (file : FileDescriptorProto) (m : DescriptorProto)
    (mv : messageValues) : Prop :=
  exists d fvs,
    mapM (fieldValuesOf d file m) (message_Field m) = Some fvs /\ mv = messageModel m fvs.

Definition models_service (file : FileDescriptorProto) (s : ServiceDescriptorProto)
    (sv : serviceValues) : Prop :=
  exists d, sv = serviceModel d file s.

End ClosedForm.

(** The empty model with which the pass starts on a file. *)
Definition new_file (file : FileDescriptorProto) : protoFile :=
  {| pf_Output := tsFileName file;
     pf_RelativeImportBase := relativeImportBase file;
     pf_Imports := ∅;
     pf_Messages := [];
     pf_Services := [];
     pf_Enums := [] |}.

(** The registry after the declaration of [names] by [file]. *)
Definition declared (file : FileDescriptorProto) (names : list string)
    (d : gmap string FileDescriptorProto) : gmap string FileDescriptorProto :=
  fold_left (fun d name => <[fullTypeName file name := file]> d) names d.

(** The file has a field, or a method input or output, of the type named
    [name]. *)
Definition references (file : FileDescriptorProto) (name : string) : Prop :=
  (exists m f, In m (file_MessageType file) /\ In f (message_Field m) /\
               field_TypeName f = name) \/
  (exists s meth, In s (file_Service file) /\ In meth (service_Method s) /\
                  (method_InputType meth = name \/ method_OutputType meth = name)).

(** The models held by [outputFiles] under a package directory. *)
Definition models_at (out : gmap string (list protoFile)) (tsPath : string) : list protoFile :=
  default [] (out !! tsPath).

(** What an iteration of the first loop keeps: the registry and the models
    already built. *)
Definition keeps (x y : gmap string (list protoFile) * State) : Prop :=
  resolver x.2 ⊆ resolver y.2 /\
  forall tsPath pf, In pf (models_at x.1 tsPath) -> In pf (models_at y.1 tsPath).

(** Where an import entry comes from: a declaration of another file. *)
Definition import_origin (file : FileDescriptorProto) (d : gmap string FileDescriptorProto)
    (key : string) : Prop :=
  exists name fp, d !! name = Some fp /\ file_Name fp <> file_Name file /\ key = tsFileName fp.

(** Two file models that differ in their imports at most. *)
Definition same_lists (pf pf' : protoFile) : Prop :=
  pf_Output pf' = pf_Output pf /\
  pf_RelativeImportBase pf' = pf_RelativeImportBase pf /\
  pf_Messages pf' = pf_Messages pf /\
  pf_Services pf' = pf_Services pf /\
  pf_Enums pf' = pf_Enums pf.

(** What an iteration of the pass can change in the registry and in the
    imports of the file under construction. *)
Definition grows (file : FileDescriptorProto) (x y : protoFile * State) : Prop :=
  resolver x.2 ⊆ resolver y.2 /\
  dom (pf_Imports x.1) ⊆ dom (pf_Imports y.1) /\
  forall key, key ∈ dom (pf_Imports y.1) ->
    key ∈ dom (pf_Imports x.1) \/ import_origin file (resolver y.2) key.

(** The import entries of a file model under a given key. *)
Definition entries (pf : protoFile) (key : string) : list (string * importValues) :=
  filter (fun kv => kv.1 = key) (map_to_list (pf_Imports pf)).

Section EmissionClosedForm.

Variable protoFile_Compile : protoFile -> option string.
Variable exportValues_Compile : exportValues -> option string.

(** The generated file of a model, the name under which the index
    exports it, and the index of a package directory. *)
Definition fileOf (pf : protoFile) : CodeGeneratorResponse_File :=
  {| rf_Name := pf_Output pf; rf_Content := default "" (protoFile_Compile pf) |}.

Definition exportOf (pf : protoFile) : string :=
  Strings.TrimSuffix (Path.Base (pf_Output pf)) ".ts".

Definition indexOf (entry : string * list protoFile) : CodeGeneratorResponse_File :=
  {| rf_Name := Path.Join [entry.1; "index.ts"];
     rf_Content :=
       default "" (exportValues_Compile {| ev_Exports := map exportOf entry.2 |}) |}.

(** What the loop over [outputFiles] appends for one entry. *)
Definition blockOf (entry : string * list protoFile) : list CodeGeneratorResponse_File :=
  map fileOf entry.2 ++ [indexOf entry].

(** Both renderings succeed on every value. *)
Definition compiles : Prop :=
  (forall pf, is_Some (protoFile_Compile pf)) /\
  (forall ev, is_Some (exportValues_Compile ev)).

End EmissionClosedForm.

(** The log after the last loop of [generate]. *)
Definition wrote (files : list CodeGeneratorResponse_File) (st : State) : State :=
  {| resolver := resolver st;
     logged := logged st ++ map (fun f => "wrote: " +:+ rf_Name f) files |}.

(** ** Concrete inputs and a concrete choice of the missing parts, for
    running the model *)

Module Sample.

Definition TypeName (d : gmap string FileDescriptorProto) (fd : FileDescriptorProto)
    (typeName : string) : string := typeName.

Definition importEntry (old : option importValues) (pf : protoFile)
    (fp : FileDescriptorProto) (typeName : string) : importValues :=
  {| iv_Name := file_Package fp; iv_Path := pf_RelativeImportBase pf +:+ tsFileName fp |}.

Definition twirpFileName : string := "twirp.ts".
Definition twirpSource : string := "// twirp runtime".

Definition Compile_file (pf : protoFile) : option string := Some ("// " +:+ pf_Output pf).

Definition Compile_index (ev : exportValues) : option string :=
  Some (Strings.Join (ev_Exports ev) ",").

Definition message (name : string) (fields : list FieldDescriptorProto) : DescriptorProto :=
  {| message_Name := name; message_Field := fields;
     message_NestedType := []; message_EnumType := [] |}.

Definition field (name : string) (t : FieldDescriptorProto_Type) (typeName : string)
  : FieldDescriptorProto :=
  {| field_Name := name; field_Type := t; field_TypeName := typeName;
     field_Label := Some LABEL_OPTIONAL |}.

(** [a.proto], package [a]: message [Foo]. *)
Definition file_a : FileDescriptorProto :=
  {| file_Name := "a.proto"; file_Package := "a"; file_EnumType := [];
     file_MessageType := [message "Foo" [field "id" TYPE_INT32 ""]];
     file_Service := [] |}.

(** [b.proto], package [b]: message [Bar] with two fields of type [a.Foo]
    and one of its own type, and a service using [a.Foo] as well. *)
Definition file_b : FileDescriptorProto :=
  {| file_Name := "b.proto"; file_Package := "b"; file_EnumType := [];
     file_MessageType :=
       [message "Bar" [field "first_foo" TYPE_MESSAGE ".a.Foo";
                       field "second_foo" TYPE_MESSAGE ".a.Foo";
                       field "next" TYPE_MESSAGE ".b.Bar"]];
     file_Service :=
       [{| service_Name := "BarService";
           service_Method := [{| method_Name := "GetBar";
                                 method_InputType := ".a.Foo";
                                 method_OutputType := ".b.Bar" |}] |}] |}.

(** A file whose message refers to a type of no file of the request,
    followed by further declarations. *)
Definition file_c : FileDescriptorProto :=
  {| file_Name := "c.proto"; file_Package := "c"; file_EnumType := [];
     file_MessageType :=
       [message "Order" [field "item" TYPE_MESSAGE ".missing.Item";
                         field "qty" TYPE_INT32 ""];
        message "Receipt" [field "total" TYPE_DOUBLE ""]];
     file_Service :=
       [{| service_Name := "Orders";
           service_Method := [{| method_Name := "Get";
                                 method_InputType := ".missing.Query";
                                 method_OutputType := ".missing.Item" |}] |}] |}.

(** A message with two nested messages and one nested enum. *)
Definition file_nested : FileDescriptorProto :=
  {| file_Name := "order.proto"; file_Package := "shop"; file_EnumType := [];
     file_MessageType :=
       [{| message_Name := "Order";
           message_Field := [field "status" TYPE_ENUM ".shop.Order.Status"];
           message_NestedType := [message "Line" []; message "Address" []];
           message_EnumType :=
             [{| enum_Name := "Status";
                 enum_Value := [{| value_Name := "OPEN"; value_Number := 0 |};
                                {| value_Name := "PAID"; value_Number := 1 |}] |}] |};
        message "Invoice" []];
     file_Service := [] |}.

(** A message with a [bytes] field. *)
Definition file_bytes : FileDescriptorProto :=
  {| file_Name := "blob.proto"; file_Package := "blob"; file_EnumType := [];
     file_MessageType := [message "Blob" [field "data" TYPE_BYTES ""]];
     file_Service := [] |}.

Definition created_at (repeated : bool) : fieldValues :=
  {| fv_Name := "created_at"; fv_Field := "createdAt"; fv_Type := "Date";
     fv_IsEnum := false; fv_IsRepeated := repeated |}.

Definition shop_v1 : FileDescriptorProto :=
  {| file_Name := "shop/v1/item.proto"; file_Package := "shop.v1"; file_EnumType := [];
     file_MessageType := [message "Item" [field "name" TYPE_STRING ""]];
     file_Service := [] |}.

Definition order_message : DescriptorProto :=
  match file_MessageType file_nested with
  | m :: _ => m
  | [] => message "" []
  end.

(** Two files of one package with the same base name, in two directories;
    both have the output path [x/x.ts]. *)
Definition file_x1 : FileDescriptorProto :=
  {| file_Name := "one/x.proto"; file_Package := "x"; file_EnumType := [];
     file_MessageType := [message "First" []];
     file_Service := [] |}.

Definition file_x2 : FileDescriptorProto :=
  {| file_Name := "two/x.proto"; file_Package := "x"; file_EnumType := [];
     file_MessageType := [message "Second" [field "first" TYPE_MESSAGE ".x.First"]];
     file_Service := [] |}.

(** The two files of two packages, in both orders. *)
Definition request_ab : CodeGeneratorRequest := {| ProtoFile := [file_a; file_b] |}.
Definition request_ba : CodeGeneratorRequest := {| ProtoFile := [file_b; file_a] |}.

(** The iteration over a map in the order of [map_to_list], and in the
    opposite order. *)
Definition range_up (m : gmap string (list protoFile)) : list (string * list protoFile) :=
  map_to_list m.
Definition range_down (m : gmap string (list protoFile)) : list (string * list protoFile) :=
  rev (map_to_list m).

End Sample.

(** ** Further helpers of the source *)

Definition upperCaseFirst (s : string) : option string :=
  a ← slice_0_1 s; Some (Strings.ToUpper1 a +:+ slice_from_1 s).

(** The [case "string", "number", "boolean"] of [objectToField]. *)
Definition scalarName (t : string) : bool :=
  String.eqb t "string" || String.eqb t "number" || String.eqb t "boolean".

(** [objectToField]; [None] is the panic of [upperCaseFirst]. *)
Definition objectToField (fv : fieldValues) : option string :=
  let t := fv_Type fv in
  let t := if String.eqb t "Date" then "string" else t in
  if fv_IsRepeated fv then
    if scalarName t then
      u ← upperCaseFirst t;
      Some ("(m['" +:+ fv_Name fv +:+ "']! || []).map((v) => { return " +:+ u +:+ "(v)})")
    else
      Some ("(m['" +:+ fv_Name fv +:+ "']! || []).map((v) => { return " +:+ t +:+
            ".fromJSON(v) })")
  else if scalarName t then Some ("m['" +:+ fv_Name fv +:+ "']!")
  else Some (t +:+ ".fromJSON(m['" +:+ fv_Name fv +:+ "']!)").

(** [tsImportName]: [base[0 : len(base)-len(path.Ext(base))]]; [None] is a
    slice out of range. *)
Definition tsImportName (name : string) : option string :=
  let base := Path.Base name in
  let ext := Path.Ext base in
  if (String.length ext <=? String.length base)%nat
  then Some (String.substring 0 (String.length base - String.length ext) base)
  else None.

Definition importName (fp : FileDescriptorProto) : option string :=
  tsImportName (file_Package fp).

(** ** Further predicates used by the statements *)

(** A path element that [path.Clean] keeps as it is: not empty, without
    slash, and neither [.] nor [..]. *)
Definition plain_element (s : string) : bool :=
  negb (String.eqb s "") && no_byte "/" s && negb (String.eqb s ".") &&
  negb (String.eqb s "..").

(** A segment of a package name as identifiers give them: not empty,
    without dot and without slash. *)
Definition package_segment (s : string) : bool :=
  negb (String.eqb s "") && no_byte "." s && no_byte "/" s.

(** The base name of the descriptor of a file without its extension, as
    [tsFileName] computes it. *)
Definition stem (fd : FileDescriptorProto) : string :=
  Strings.TrimSuffix (Path.Base (file_Name fd)) (Path.Ext (file_Name fd)).

(** The names that the loop over [outputFiles] appends for one entry. *)
Definition blockNames (entry : string * list protoFile) : list string :=
  map pf_Output entry.2 ++ [Path.Join [entry.1; "index.ts"]].

(** The number of models held by [outputFiles]. *)
Definition models_count (out : gmap string (list protoFile)) : nat :=
  sum_list_with (fun entry : string * list protoFile => length entry.2) (map_to_list out).


(** ** Further concrete inputs *)

Module Requests.

(** The nested enum of the message [Order] and the field of its type. *)
Definition status_enum : EnumDescriptorProto :=
  {| enum_Name := "Status";
     enum_Value := [{| value_Name := "OPEN"; value_Number := 0 |};
                    {| value_Name := "PAID"; value_Number := 1 |}] |}.

Definition status_field : FieldDescriptorProto :=
  Sample.field "status" TYPE_ENUM ".shop.Order.Status".

(** A field of the type of a message [Date] of the package [shop], and
    its model. *)
Definition when_field : FieldDescriptorProto :=
  Sample.field "when" TYPE_MESSAGE ".shop.Date".

Definition when_model : fieldValues :=
  {| fv_Name := "when"; fv_Field := "when"; fv_Type := "Date";
     fv_IsEnum := false; fv_IsRepeated := false |}.

(** Four files of three package directories, two of them of the
    directory [x], and the two files of the directory [x] alone. *)
Definition request_mixed : CodeGeneratorRequest :=
  {| ProtoFile := [Sample.file_nested; Sample.file_x1; Sample.file_a; Sample.file_x2] |}.

Definition request_x : CodeGeneratorRequest :=
  {| ProtoFile := [Sample.file_x1; Sample.file_x2] |}.

End Requests.

(** * Properties *)

(** ** Splitting and joining *)

Lemma Split_nonempty s c : Strings.Split s c <> [].
Proof.
  induction s as [|a s IH]; simpl; [discriminate|].
  destruct (Ascii.eqb a c); [discriminate|].
  destruct (Strings.Split s c); [contradiction|discriminate].
Qed.

Lemma SplitN_nonempty s c n : Strings.SplitN s c (S n) <> [].
Proof.
  revert n. induction s as [|a s IH]; intros [|n]; simpl; try discriminate.
  destruct (Ascii.eqb a c); [discriminate|].
  specialize (IH (S n)).
  destruct (Strings.SplitN s c (S (S n))); [contradiction|discriminate].
Qed.

Lemma SplitN_1 s c : Strings.SplitN s c 1 = [s].
Proof. by destruct s. Qed.

Lemma Split_no_byte s c : no_byte c s = true -> Strings.Split s c = [s].
Proof.
  induction s as [|a s IH]; simpl; [reflexivity|].
  intros [Ha Hs]%andb_prop. apply negb_true_iff in Ha. rewrite Ha, (IH Hs). reflexivity.
Qed.

Lemma Split_app_sep s c t :
  no_byte c s = true -> Strings.Split (s +:+ String c t) c = s :: Strings.Split t c.
Proof.
  induction s as [|a s IH]; simpl.
  - intros _. rewrite Ascii.eqb_refl. reflexivity.
  - intros [Ha Hs]%andb_prop. apply negb_true_iff in Ha. rewrite Ha, (IH Hs). reflexivity.
Qed.

Lemma SplitN_app_sep s c t n :
  no_byte c s = true ->
  Strings.SplitN (s +:+ String c t) c (S (S n)) = s :: Strings.SplitN t c (S n).
Proof.
  induction s as [|a s IH]; simpl.
  - intros _. rewrite Ascii.eqb_refl. reflexivity.
  - intros [Ha Hs]%andb_prop. apply negb_true_iff in Ha. rewrite Ha.
    change (match Strings.SplitN (s +:+ String c t) c (S (S n)) with
            | [] => [String a ""] | p :: ps => String a p :: ps end
            = String a s :: Strings.SplitN t c (S n)).
    rewrite (IH Hs). reflexivity.
Qed.

Lemma Split_Join l c x :
  Forall (fun s => no_byte c s = true) (x :: l) ->
  Strings.Split (Strings.Join (x :: l) (String c "")) c = x :: l.
Proof.
  revert x. induction l as [|y l IH]; intros x H.
  - simpl. apply Split_no_byte. by inversion H.
  - inversion H as [|? ? Hx Hl]; subst.
    change (Strings.Join (x :: y :: l) (String c ""))
      with (x +:+ String c "" +:+ Strings.Join (y :: l) (String c "")).
    change (String c "" +:+ Strings.Join (y :: l) (String c ""))
      with (String c (Strings.Join (y :: l) (String c ""))).
    rewrite (Split_app_sep _ _ _ Hx), (IH y Hl). reflexivity.
Qed.

Lemma append_String a (s t : string) : String a s +:+ t = String a (s +:+ t).
Proof. reflexivity. Qed.

Lemma append_assoc (s t u : string) : (s +:+ t) +:+ u = s +:+ t +:+ u.
Proof. induction s as [|a s IH]; [reflexivity|]. by rewrite !append_String, IH. Qed.

Lemma append_length (s t : string) :
  String.length (s +:+ t) = String.length s + String.length t.
Proof.
  induction s as [|a s IH]; [reflexivity|].
  rewrite append_String. cbn [String.length]. by rewrite IH.
Qed.

Lemma Join_cons x y l sep :
  Strings.Join (x :: y :: l) sep = x +:+ sep +:+ Strings.Join (y :: l) sep.
Proof. reflexivity. Qed.

Lemma Join_snoc x l y sep :
  Strings.Join (x :: l) sep +:+ sep +:+ y = Strings.Join (x :: l ++ [y]) sep.
Proof.
  revert x. induction l as [|z l IH]; intros x; [reflexivity|].
  change ((z :: l) ++ [y]) with (z :: l ++ [y]).
  rewrite !Join_cons, <- IH, !append_assoc. reflexivity.
Qed.

Lemma Join_snoc_length l y sep :
  String.length y <= String.length (Strings.Join (l ++ [y]) sep).
Proof.
  induction l as [|x l IH]; [reflexivity|].
  destruct l as [|z l]; cbn [app] in *.
  - rewrite Join_cons, !append_length. cbn. lia.
  - rewrite Join_cons, !append_length. lia.
Qed.

(** ** [removePkg] *)

(** On a name [.first.rest1...restk.name] only the leading segment goes:
    the remaining segments stay, joined by underscores. *)
Lemma removePkg_segments first rest name :
  Forall (fun s => no_byte "." s = true) (first :: rest ++ [name]) ->
  removePkg ("." +:+ Strings.Join (first :: rest) "." +:+ "." +:+ name)
  = Strings.Join (rest ++ [name]) "_".
Proof.
  intros H. unfold removePkg.
  rewrite Join_snoc.
  inversion H as [|? ? Hfirst Hrest]; subst.
  destruct (rest ++ [name]) as [|y l] eqn:E; [by destruct rest|].
  rewrite Join_cons.
  change ("." +:+ first +:+ "." +:+ Strings.Join (y :: l) ".")
    with (String "." (first +:+ String "." (Strings.Join (y :: l) "."))).
  change (Strings.SplitN (String "." (first +:+ String "." (Strings.Join (y :: l) "."))) "." 3)
    with ("" :: Strings.SplitN (first +:+ String "." (Strings.Join (y :: l) ".")) "." 2).
  rewrite (SplitN_app_sep _ _ _ 0 Hfirst).
  rewrite SplitN_1. cbn [List.last].
  by rewrite (Split_Join l "." y Hrest).
Qed.

Lemma removePkg_one_segment pkg name :
  no_byte "." pkg = true -> no_byte "." name = true ->
  removePkg ("." +:+ pkg +:+ "." +:+ name) = name.
Proof.
  intros Hp Hn. apply (removePkg_segments pkg [] name). by repeat constructor.
Qed.

(** ** [singularFieldType] and [fieldType] *)

Lemma singularFieldType_number m f :
  In (field_Type f) [TYPE_DOUBLE; TYPE_FIXED32; TYPE_FIXED64; TYPE_INT32; TYPE_INT64;
                     TYPE_UINT32; TYPE_UINT64] ->
  singularFieldType m f = "number".
Proof.
  unfold singularFieldType. intros H. simpl in H.
  destruct (field_Type f); try reflexivity; exfalso; intuition discriminate.
Qed.

Lemma singularFieldType_string_bool m f :
  (field_Type f = TYPE_STRING -> singularFieldType m f = "string") /\
  (field_Type f = TYPE_BOOL -> singularFieldType m f = "boolean").
Proof. unfold singularFieldType. split; intros ->; reflexivity. Qed.

Lemma singularFieldType_Timestamp m f :
  field_Type f = TYPE_MESSAGE -> field_TypeName f = ".google.protobuf.Timestamp" ->
  singularFieldType m f = "Date".
Proof. unfold singularFieldType. intros -> ->. reflexivity. Qed.

Lemma fieldType_Date f :
  fv_Type f = "Date" -> fieldType f = if fv_IsRepeated f then "string[]" else "string".
Proof. unfold fieldType. intros ->. by destruct (fv_IsRepeated f). Qed.

(** ** [camelCase] and [methodName] *)

Lemma camelCase_parts_rest_None ps :
  In "" ps -> camelCase_parts false ps = None.
Proof.
  induction ps as [|p ps IH]; [contradiction|].
  intros [->|Hin]; [reflexivity|].
  cbn [camelCase_parts]. rewrite (IH Hin).
  by destruct (slice_0_1 p).
Qed.

Lemma camelCase_parts_rest_Some ps :
  ~ In "" ps -> is_Some (camelCase_parts false ps).
Proof.
  induction ps as [|p ps IH]; intros Hn; [by eexists|].
  destruct IH as [ps' Hps']; [intros ?; apply Hn; by right|].
  destruct p as [|a p]; [exfalso; apply Hn; by left|].
  cbn. rewrite Hps'. by eexists.
Qed.

(** [camelCase] panics exactly on the names with an empty segment after
    the first one. *)
Lemma camelCase_None_iff s :
  camelCase s = None <-> In "" (List.tail (Strings.Split s "_")).
Proof.
  unfold camelCase.
  destruct (Strings.Split s "_") as [|p ps] eqn:E; [by destruct (Split_nonempty s "_")|].
  cbn [camelCase_parts List.tail]. split.
  - intros H. destruct (in_dec String.string_dec "" ps) as [|Hn]; [done|].
    destruct (camelCase_parts_rest_Some ps Hn) as [ps' Hps']. rewrite Hps' in H. discriminate.
  - intros H. by rewrite (camelCase_parts_rest_None ps H).
Qed.

Lemma methodName_None_iff method : methodName method = None <-> method = "".
Proof. destruct method; cbn; split; congruence. Qed.

(** ** The monad of the pass *)

Lemma bind_Ok {A B} (m : M A) (k : A -> M B) st r :
  bind m k st = Ok r <-> exists a st1, m st = Ok (a, st1) /\ k a st1 = Ok r.
Proof.
  unfold bind. split.
  - destruct (m st) as [[a st1]|e]; [eauto|discriminate].
  - intros (a & st1 & -> & H). exact H.
Qed.

Lemma bind_assoc_run {A B C} (m : M A) (k : A -> M B) (h : B -> M C) st :
  bind (bind m k) h st = bind m (fun a => bind (k a) h) st.
Proof. unfold bind. by destruct (m st) as [[a st1]|e]. Qed.

Lemma ret_Ok {A} (a : A) st r : ret a st = Ok r <-> r = (a, st).
Proof. unfold ret. split; congruence. Qed.

Lemma foldM_app {A B} (f : B -> A -> M B) l1 l2 b st :
  foldM f (l1 ++ l2) b st = bind (foldM f l1 b) (foldM f l2) st.
Proof.
  revert b st. induction l1 as [|a l1 IH]; intros b st; [reflexivity|].
  cbn [app foldM]. unfold bind at 1. rewrite bind_assoc_run.
  unfold bind at 1. destruct (f b a st) as [[b1 st1]|e]; [|reflexivity]. apply IH.
Qed.

(** A relation between the states of a loop that every iteration
    establishes holds across the loop. *)
Lemma foldM_rel {A B} (f : B -> A -> M B) (R : B * State -> B * State -> Prop) :
  (forall x, R x x) ->
  (forall x y z, R x y -> R y z -> R x z) ->
  (forall b a st b' st', f b a st = Ok (b', st') -> R (b, st) (b', st')) ->
  forall l b st b' st', foldM f l b st = Ok (b', st') -> R (b, st) (b', st').
Proof.
  intros Hrefl Htrans Hstep. induction l as [|a l IH]; intros b st b' st' H.
  - apply ret_Ok in H. injection H as -> ->. apply Hrefl.
  - cbn [foldM] in H. apply bind_Ok in H as (b1 & st1 & H1 & H2).
    eapply Htrans; [eapply Hstep, H1|eapply IH, H2].
Qed.

(** The iteration on a given element of the slice. *)
Lemma foldM_In {A B} (f : B -> A -> M B) l b st b' st' x :
  In x l -> foldM f l b st = Ok (b', st') ->
  exists l1 l2 b1 st1 b2 st2,
    l = l1 ++ x :: l2 /\
    foldM f l1 b st = Ok (b1, st1) /\
    f b1 x st1 = Ok (b2, st2) /\
    foldM f l2 b2 st2 = Ok (b', st').
Proof.
  intros Hin H. apply in_split in Hin as (l1 & l2 & ->).
  rewrite foldM_app in H. apply bind_Ok in H as (b1 & st1 & H1 & H2).
  cbn [foldM] in H2. apply bind_Ok in H2 as (b2 & st2 & H2 & H3).
  by exists l1, l2, b1, st1, b2, st2.
Qed.

(** A loop whose every iteration returns, under a condition on what is
    left to do, returns. *)
Lemma foldM_progress {A B} (f : B -> A -> M B) (I : list A -> B -> State -> Prop) :
  (forall a l b st, I (a :: l) b st -> exists b' st', f b a st = Ok (b', st') /\ I l b' st') ->
  forall l b st, I l b st -> exists b' st', foldM f l b st = Ok (b', st') /\ I [] b' st'.
Proof.
  intros Hstep. induction l as [|a l IH]; intros b st HI.
  - by exists b, st.
  - destruct (Hstep _ _ _ _ HI) as (b1 & st1 & H1 & HI1).
    destruct (IH _ _ HI1) as (b' & st' & H2 & HI').
    exists b', st'. split; [|done]. cbn [foldM]. apply bind_Ok. eauto.
Qed.

(** Conversely, a condition that passes from after an iteration to before
    it holds before a loop that returns, when it holds at the end. *)
Lemma foldM_regress {A B} (f : B -> A -> M B) (I : list A -> B -> State -> Prop) :
  (forall a l b st b' st', f b a st = Ok (b', st') -> I l b' st' -> I (a :: l) b st) ->
  forall l b st b' st', foldM f l b st = Ok (b', st') -> I [] b' st' -> I l b st.
Proof.
  intros Hstep. induction l as [|a l IH]; intros b st b' st' H HI.
  - apply ret_Ok in H. by injection H as -> ->.
  - cbn [foldM] in H. apply bind_Ok in H as (b1 & st1 & H1 & H2).
    eapply Hstep; [exact H1|]. by eapply IH.
Qed.

Lemma resolver_Set_Ok fd name st r :
  resolver_Set fd name st = Ok r <->
  resolver st !! fullTypeName fd name = None /\
  r = (tt, declare fd name st).
Proof.
  unfold resolver_Set. destruct (resolver st !! fullTypeName fd name); split.
  - discriminate.
  - intros [? _]. discriminate.
  - intros [= <-]. done.
  - intros [_ ->]. done.
Qed.

(** ** The loops that only append *)

Lemma fold_left_snoc_map {A B} (g : A -> B) l acc :
  fold_left (fun acc a => acc ++ [g a]) l acc = acc ++ map g l.
Proof.
  revert acc. induction l as [|a l IH]; intros acc; cbn [fold_left map].
  - by rewrite app_nil_r.
  - by rewrite IH, <- app_assoc.
Qed.

Lemma enumKeyVals_map values : enumKeyVals values = map enumKeyValOf values.
Proof. unfold enumKeyVals. by rewrite (fold_left_snoc_map enumKeyValOf). Qed.

Lemma nestedEnums_map message :
  nestedEnums message =
  map (fun enum => {| en_Name := message_Name message +:+ "_" +:+ enum_Name enum;
                      en_Values := map enumKeyValOf (enum_Value enum) |})
      (message_EnumType message).
Proof.
  unfold nestedEnums.
  rewrite (fold_left_snoc_map
             (fun enum => {| en_Name := message_Name message +:+ "_" +:+ enum_Name enum;
                             en_Values := enumKeyVals (enum_Value enum) |})).
  cbn [app]. apply map_ext. intros e. by rewrite enumKeyVals_map.
Qed.

(** ** The iterations of the pass, one by one *)

Section Steps.

Variable TypeName :
  gmap string FileDescriptorProto -> FileDescriptorProto -> string -> string.
Variable importEntry :
  option importValues -> protoFile -> FileDescriptorProto -> string -> importValues.

Local Abbreviation addField := (addField TypeName importEntry).
Local Abbreviation addMethod := (addMethod TypeName importEntry).
Local Abbreviation addMessage := (addMessage TypeName importEntry).
Local Abbreviation addService := (addService TypeName importEntry).
Local Abbreviation buildFile := (buildFile TypeName importEntry).
Local Abbreviation fieldValuesOf := (fieldValuesOf TypeName).
Local Abbreviation fieldImport := (fieldImport TypeName importEntry).
Local Abbreviation methodValuesOf := (methodValuesOf TypeName).
Local Abbreviation methodImport := (methodImport TypeName importEntry).
Local Abbreviation serviceModel := (serviceModel TypeName).
Local Abbreviation models_message := (models_message TypeName).
Local Abbreviation models_service := (models_service TypeName).

Lemma addField_run file m pf v f st :
  addField file m (pf, v) f st =
  match fieldValuesOf (resolver st) file m f with
  | Some fv => Ok ((fieldImport (resolver st) file m pf f, mv_append_Field v fv), st)
  | None => Err SliceBoundsOutOfRange
  end.
Proof.
  unfold addField, fieldValuesOf, bind, get_resolver, or_panic.
  by destruct (camelCase (field_Name f)).
Qed.

Lemma fields_run file m fs pf v st :
  foldM (addField file m) fs (pf, v) st =
  match mapM (fieldValuesOf (resolver st) file m) fs with
  | Some fvs => Ok ((fold_left (fieldImport (resolver st) file m) fs pf,
                     fold_left mv_append_Field fvs v), st)
  | None => Err SliceBoundsOutOfRange
  end.
Proof.
  revert pf v. induction fs as [|f fs IH]; intros pf v; [reflexivity|].
  cbn [foldM mapM fold_left]. unfold bind at 1. rewrite addField_run.
  destruct (fieldValuesOf (resolver st) file m f) as [fv|]; [|reflexivity].
  rewrite IH. cbn.
  by destruct (mapM (fieldValuesOf (resolver st) file m) fs).
Qed.

Lemma addMethod_run file pf v meth st :
  addMethod file (pf, v) meth st =
  Ok ((methodImport (resolver st) file pf meth,
       sv_append_Method v (methodValuesOf (resolver st) file meth)), st).
Proof. reflexivity. Qed.

Lemma methods_run file ms pf v st :
  foldM (addMethod file) ms (pf, v) st =
  Ok ((fold_left (methodImport (resolver st) file) ms pf,
       fold_left sv_append_Method (map (methodValuesOf (resolver st) file) ms) v), st).
Proof.
  revert pf v. induction ms as [|meth ms IH]; intros pf v; [reflexivity|].
  cbn [foldM map fold_left]. unfold bind at 1. rewrite addMethod_run. apply IH.
Qed.

Lemma fold_left_mv_append_Field fvs v :
  fold_left mv_append_Field fvs v =
  {| mv_Name := mv_Name v; mv_Interface := mv_Interface v;
     mv_JSONInterface := mv_JSONInterface v;
     mv_Fields := mv_Fields v ++ fvs;
     mv_NestedTypes := mv_NestedTypes v;
     mv_NestedEnums := mv_NestedEnums v |}.
Proof.
  revert v. induction fvs as [|fv fvs IH]; intros v; cbn [fold_left].
  - rewrite app_nil_r. by destruct v.
  - rewrite IH. cbn. by rewrite <- app_assoc.
Qed.

Lemma fold_left_sv_append_Method ms v :
  fold_left sv_append_Method ms v =
  {| sv_Package := sv_Package v; sv_Name := sv_Name v; sv_Interface := sv_Interface v;
     sv_Methods := sv_Methods v ++ ms |}.
Proof.
  revert v. induction ms as [|m ms IH]; intros v; cbn [fold_left].
  - rewrite app_nil_r. by destruct v.
  - rewrite IH. cbn. by rewrite <- app_assoc.
Qed.

Lemma addEnum_Ok file pf enum st pf' st' :
  addEnum file pf enum st = Ok (pf', st') <->
  resolver st !! fullTypeName file (enum_Name enum) = None /\
  pf' = pf_append_Enum pf (enumModel enum) /\
  st' = declare file (enum_Name enum) st.
Proof.
  unfold addEnum. rewrite bind_Ok. setoid_rewrite resolver_Set_Ok.
  rewrite enumKeyVals_map. fold (enumModel enum). split.
  - intros (u & st1 & [Hfresh Heq] & Hret). apply ret_Ok in Hret.
    by simplify_eq.
  - intros (Hfresh & -> & ->). by exists tt, (declare file (enum_Name enum) st).
Qed.

(** An iteration of "Add messages" that returns. *)
Lemma addMessage_Ok file pf m st pf' st' :
  addMessage file pf m st = Ok (pf', st') <->
  fresh st (map (fullTypeName file) (messageNames m)) /\
  exists fvs,
    mapM (fieldValuesOf (resolver (declareMessage file m st)) file m) (message_Field m)
      = Some fvs /\
    pf' = pf_append_Message
            (fold_left (fieldImport (resolver (declareMessage file m st)) file m)
                       (message_Field m) pf)
            (messageModel m fvs) /\
    st' = (if hasNestedType m then log_line nested_warning (declareMessage file m st)
           else declareMessage file m st).
Proof.
  unfold addMessage, fresh, messageNames, declareMessage.
  set (n := message_Name m). set (ni := typeToInterface n). set (nj := typeToJSONInterface n).
  cbn [map]. rewrite !NoDup_cons, !Forall_cons, !list_elem_of_In. cbn [In].
  rewrite !bind_Ok. split.
  - intros ([] & s1 & [H1 E1]%resolver_Set_Ok & H).
    apply bind_Ok in H as ([] & s2 & [H2 E2]%resolver_Set_Ok & H).
    apply bind_Ok in H as ([] & s3 & [H3 E3]%resolver_Set_Ok & H).
    apply bind_Ok in H as ([] & s4 & H4 & H).
    apply bind_Ok in H as ([pf1 v1] & s5 & H5 & H6).
    apply ret_Ok in H6. rewrite fields_run in H5.
    injection E1 as ->. injection E2 as ->. injection E3 as ->.
    set (st3 := declare file nj (declare file ni (declare file n st))) in *.
    assert (s4 = if hasNestedType m then log_line nested_warning st3 else st3) as Hs4.
    { unfold hasNestedType. destruct (0 <? length (message_NestedType m))%nat.
      - unfold log_Printf in H4. by injection H4 as <-.
      - apply ret_Ok in H4. by injection H4 as <-. }
    assert (resolver s4 = resolver st3) as Hr.
    { rewrite Hs4. by destruct (hasNestedType m). }
    rewrite Hr in H5.
    destruct (mapM (fieldValuesOf (resolver st3) file m) (message_Field m)) as [fvs|] eqn:Hm;
      [|discriminate].
    injection H5 as ? ? ?. injection H6 as ? ?. subst pf1 v1 s5 pf' st'.
    cbn in H2, H3.
    apply lookup_insert_None in H2 as [H2 N21].
    apply lookup_insert_None in H3 as [H3 N32].
    apply lookup_insert_None in H3 as [H3 N31].
    split; [split|].
    + split; [intros [?|[?|[]]]; congruence|].
      split; [intros [?|[]]; congruence|].
      split; [intros []|apply NoDup_nil_2].
    + repeat split; [done..|apply Forall_nil_2].
    + exists fvs. split; [done|]. split; [|done].
      f_equal. rewrite fold_left_mv_append_Field. unfold messageModel. cbn.
      by rewrite nestedEnums_map.
  - intros ([(Hn1 & Hn2 & _) (H1 & H2 & H3 & _)] & fvs & Hm & -> & ->).
    assert (fullTypeName file n <> fullTypeName file ni) as N21
      by (intros E; apply Hn1; rewrite E; auto).
    assert (fullTypeName file n <> fullTypeName file nj) as N31
      by (intros E; apply Hn1; rewrite E; auto).
    assert (fullTypeName file ni <> fullTypeName file nj) as N32
      by (intros E; apply Hn2; rewrite E; auto).
    exists tt, (declare file n st). split; [by apply resolver_Set_Ok|].
    apply bind_Ok. exists tt, (declare file ni (declare file n st)).
    split.
    { apply resolver_Set_Ok. split; [|done]. cbn. by rewrite lookup_insert_ne. }
    apply bind_Ok.
    set (st3 := declare file nj (declare file ni (declare file n st))) in *.
    exists tt, st3.
    split.
    { apply resolver_Set_Ok. split; [|done]. cbn. by rewrite !lookup_insert_ne. }
    apply bind_Ok.
    exists tt, (if hasNestedType m then log_line nested_warning st3 else st3). split.
    { unfold hasNestedType. by destruct (0 <? length (message_NestedType m))%nat. }
    apply bind_Ok.
    eexists (_, _), _. split.
    { rewrite fields_run.
      replace (resolver (if hasNestedType m then log_line nested_warning st3 else st3))
        with (resolver st3) by (by destruct (hasNestedType m)).
      rewrite Hm. reflexivity. }
    apply ret_Ok. f_equal. f_equal. rewrite fold_left_mv_append_Field. unfold messageModel. cbn.
    by rewrite nestedEnums_map.
Qed.

(** An iteration of "Add services" that returns. *)
Lemma addService_Ok file pf service st pf' st' :
  addService file pf service st = Ok (pf', st') <->
  resolver st !! fullTypeName file (service_Name service) = None /\
  pf' = pf_append_Service
          (fold_left (methodImport (resolver (declare file (service_Name service) st)) file)
                     (service_Method service) pf)
          (serviceModel (resolver (declare file (service_Name service) st)) file service) /\
  st' = declare file (service_Name service) st.
Proof.
  unfold addService. rewrite bind_Ok. setoid_rewrite resolver_Set_Ok.
  setoid_rewrite bind_Ok. setoid_rewrite methods_run.
  setoid_rewrite fold_left_sv_append_Method. split.
  - intros (u & st1 & [Hfresh Heq] & [pf1 v1] & st2 & Hrun & Hret).
    apply ret_Ok in Hret. by simplify_eq.
  - intros (Hfresh & -> & ->). eexists tt, _. split; [done|].
    eexists (_, _), _. split; [reflexivity|]. by apply ret_Ok.
Qed.

(** *** The imports *)

Lemma importIfForeign_same_lists d file pf name t :
  same_lists pf (importIfForeign importEntry d file pf name t).
Proof.
  unfold importIfForeign, resolver_Resolve.
  destruct (d !! name) as [fp|]; [destruct (negb (sameFile fp file))|]; by repeat split.
Qed.

Lemma importIfForeign_dom d file pf name t :
  dom (pf_Imports (importIfForeign importEntry d file pf name t)) =
  dom (pf_Imports pf) ∪
  match d !! name with
  | Some fp => if sameFile fp file then ∅ else {[tsFileName fp]}
  | None => ∅
  end.
Proof.
  unfold importIfForeign, resolver_Resolve.
  destruct (d !! name) as [fp|]; [destruct (sameFile fp file)|]; cbn.
  - set_solver.
  - rewrite dom_insert_L. set_solver.
  - set_solver.
Qed.

(** A reference to a declaration of the file itself records nothing. *)
Lemma importIfForeign_same_file d file pf name t fp :
  d !! name = Some fp -> sameFile fp file = true ->
  importIfForeign importEntry d file pf name t = pf.
Proof. unfold importIfForeign, resolver_Resolve. by intros -> ->. Qed.

(** A reference that does not resolve records nothing. *)
Lemma importIfForeign_unresolved d file pf name t :
  d !! name = None -> importIfForeign importEntry d file pf name t = pf.
Proof. unfold importIfForeign, resolver_Resolve. by intros ->. Qed.

Lemma sameFile_false a b : sameFile a b = false <-> file_Name a <> file_Name b.
Proof. unfold sameFile. apply String.eqb_neq. Qed.

Lemma importIfForeign_grows d file pf name t st :
  resolver st = d -> grows file (pf, st) (importIfForeign importEntry d file pf name t, st).
Proof.
  intros Hd. unfold grows. cbn [fst snd]. rewrite importIfForeign_dom.
  split; [done|]. split; [set_solver|]. intros key Hkey.
  apply elem_of_union in Hkey as [Hkey|Hkey]; [by left|]. right.
  destruct (d !! name) as [fp|] eqn:Hfp; [|set_solver].
  destruct (sameFile fp file) eqn:Hsame; [set_solver|].
  apply elem_of_singleton in Hkey as ->.
  exists name, fp. rewrite Hd. by rewrite <- sameFile_false.
Qed.

Lemma import_origin_mono file (d d' : gmap string FileDescriptorProto) key :
  d ⊆ d' -> import_origin file d key -> import_origin file d' key.
Proof.
  intros Hsub (name & fp & Hfp & Hne & ->). exists name, fp.
  split; [|done]. by eapply lookup_weaken.
Qed.

Lemma grows_refl file x : grows file x x.
Proof. unfold grows. split; [done|]. split; [done|]. by left. Qed.

Lemma grows_trans file x y z : grows file x y -> grows file y z -> grows file x z.
Proof.
  intros (Hr1 & Hd1 & Ho1) (Hr2 & Hd2 & Ho2). split; [by etrans|]. split; [by etrans|].
  intros key Hkey. destruct (Ho2 key Hkey) as [Hy|Hy]; [|by right].
  destruct (Ho1 key Hy) as [Hx|Hx]; [by left|right]. by eapply import_origin_mono.
Qed.

Lemma grows_same file pf st pf' st' :
  resolver st' = resolver st -> pf_Imports pf' = pf_Imports pf ->
  grows file (pf, st) (pf', st').
Proof.
  intros Hr Hi. unfold grows. cbn [fst snd]. rewrite Hr, Hi.
  split; [done|]. split; [done|]. by left.
Qed.

Lemma declare_grows file pf fd name st :
  resolver st !! fullTypeName fd name = None ->
  grows file (pf, st) (pf, declare fd name st).
Proof.
  intros Hfresh. unfold grows. cbn [fst snd declare resolver].
  split; [by apply insert_subseteq|]. split; [done|]. by left.
Qed.

Lemma declareMessage_grows file pf m st :
  fresh st (map (fullTypeName file) (messageNames m)) ->
  grows file (pf, st) (pf, declareMessage file m st).
Proof.
  unfold fresh, messageNames, declareMessage. cbn [map].
  rewrite !NoDup_cons, !Forall_cons, !list_elem_of_In. cbn [In].
  intros [(Hn1 & Hn2 & _) (H1 & H2 & H3 & _)].
  apply (grows_trans _ _ (pf, declare file (message_Name m) st)); [by apply declare_grows|].
  apply (grows_trans _ _ (pf, declare file (typeToInterface (message_Name m))
                                (declare file (message_Name m) st)));
    apply declare_grows; cbn; rewrite !lookup_insert_None.
  - split; [done|]. intros E. apply Hn1. rewrite E. auto.
  - split; [split; [done|]|].
    + intros E. apply Hn1. rewrite E. auto.
    + intros E. apply Hn2. rewrite E. auto.
Qed.

Lemma fields_grows file m fs pf st :
  grows file (pf, st) (fold_left (fieldImport (resolver st) file m) fs pf, st).
Proof.
  revert pf. induction fs as [|f fs IH]; intros pf; [apply grows_refl|].
  cbn [fold_left]. eapply grows_trans; [|apply IH].
  by apply importIfForeign_grows.
Qed.

Lemma methods_grows file ms pf st :
  grows file (pf, st) (fold_left (methodImport (resolver st) file) ms pf, st).
Proof.
  revert pf. induction ms as [|meth ms IH]; intros pf; [apply grows_refl|].
  cbn [fold_left]. eapply grows_trans; [|apply IH].
  unfold methodImport.
  eapply grows_trans; by apply importIfForeign_grows.
Qed.

Lemma addEnum_grows file pf enum st pf' st' :
  addEnum file pf enum st = Ok (pf', st') -> grows file (pf, st) (pf', st').
Proof.
  intros (Hfresh & -> & ->)%addEnum_Ok.
  eapply grows_trans; [by apply declare_grows|]. by apply grows_same.
Qed.

Lemma addMessage_grows file pf m st pf' st' :
  addMessage file pf m st = Ok (pf', st') -> grows file (pf, st) (pf', st').
Proof.
  intros (Hfresh & fvs & Hm & -> & ->)%addMessage_Ok.
  eapply grows_trans; [by apply declareMessage_grows|].
  eapply grows_trans; [apply fields_grows|].
  apply grows_same; [by destruct (hasNestedType m)|done].
Qed.

Lemma addService_grows file pf service st pf' st' :
  addService file pf service st = Ok (pf', st') -> grows file (pf, st) (pf', st').
Proof.
  intros (Hfresh & -> & ->)%addService_Ok.
  eapply grows_trans; [by apply declare_grows|].
  eapply grows_trans; [apply methods_grows|]. by apply grows_same.
Qed.

Lemma loop_grows {A} (f : protoFile -> A -> M protoFile) file :
  (forall pf a st pf' st', f pf a st = Ok (pf', st') -> grows file (pf, st) (pf', st')) ->
  forall l pf st pf' st', foldM f l pf st = Ok (pf', st') -> grows file (pf, st) (pf', st').
Proof.
  intros Hstep. apply (foldM_rel f (grows file)); [apply grows_refl|apply grows_trans|done].
Qed.

(** *** The lists of a file model *)

Lemma same_lists_refl pf : same_lists pf pf.
Proof. by repeat split. Qed.

Lemma same_lists_trans pf1 pf2 pf3 :
  same_lists pf1 pf2 -> same_lists pf2 pf3 -> same_lists pf1 pf3.
Proof. unfold same_lists. intros (?&?&?&?&?) (?&?&?&?&?). repeat split; congruence. Qed.

Lemma fields_same_lists d file m fs pf :
  same_lists pf (fold_left (fieldImport d file m) fs pf).
Proof.
  revert pf. induction fs as [|f fs IH]; intros pf; [apply same_lists_refl|].
  cbn [fold_left]. eapply same_lists_trans; [|apply IH]. apply importIfForeign_same_lists.
Qed.

Lemma methods_same_lists d file ms pf :
  same_lists pf (fold_left (methodImport d file) ms pf).
Proof.
  revert pf. induction ms as [|meth ms IH]; intros pf; [apply same_lists_refl|].
  cbn [fold_left]. eapply same_lists_trans; [|apply IH].
  eapply same_lists_trans; apply importIfForeign_same_lists.
Qed.

Lemma enums_loop file es pf st pf' st' :
  foldM (addEnum file) es pf st = Ok (pf', st') ->
  pf_Output pf' = pf_Output pf /\
  pf_Enums pf' = pf_Enums pf ++ map enumModel es /\
  pf_Messages pf' = pf_Messages pf /\
  pf_Services pf' = pf_Services pf /\
  logged st' = logged st.
Proof.
  revert pf st. induction es as [|e es IH]; intros pf st H.
  - apply ret_Ok in H. injection H as -> ->. by rewrite app_nil_r.
  - cbn [foldM] in H. apply bind_Ok in H as (pf1 & st1 & H1 & H2).
    apply addEnum_Ok in H1 as (_ & -> & ->).
    destruct (IH _ _ H2) as (-> & -> & -> & -> & ->). cbn. by rewrite <- app_assoc.
Qed.

Lemma messages_loop file ms pf st pf' st' :
  foldM (addMessage file) ms pf st = Ok (pf', st') ->
  pf_Output pf' = pf_Output pf /\
  pf_Enums pf' = pf_Enums pf /\
  (exists mvs, pf_Messages pf' = pf_Messages pf ++ mvs /\
               Forall2 (models_message file) ms mvs) /\
  pf_Services pf' = pf_Services pf /\
  logged st' = logged st ++ repeat nested_warning (length (List.filter hasNestedType ms)).
Proof.
  revert pf st. induction ms as [|m ms IH]; intros pf st H.
  - apply ret_Ok in H. injection H as -> ->. rewrite app_nil_r.
    repeat split; try done. exists []. by rewrite app_nil_r.
  - cbn [foldM] in H. apply bind_Ok in H as (pf1 & st1 & H1 & H2).
    apply addMessage_Ok in H1 as (_ & fvs & Hm & -> & ->).
    destruct (IH _ _ H2) as (-> & -> & (mvs & -> & Hmvs) & -> & ->).
    destruct (fields_same_lists (resolver (declareMessage file m st)) file m
                (message_Field m) pf) as (? & ? & ? & ? & ?).
    cbn [pf_append_Message pf_Output pf_Enums pf_Messages pf_Services].
    repeat split; try done.
    + exists (messageModel m fvs :: mvs). split.
      * rewrite <- app_assoc.
        by destruct (fields_same_lists (resolver (declareMessage file m st)) file m
                       (message_Field m) pf) as (_ & _ & -> & _).
      * constructor; [|done]. by eexists _, fvs.
    + cbn [List.filter].
      destruct (hasNestedType m); cbn; by rewrite <- ?app_assoc.
Qed.

Lemma services_loop file ss pf st pf' st' :
  foldM (addService file) ss pf st = Ok (pf', st') ->
  pf_Output pf' = pf_Output pf /\
  pf_Enums pf' = pf_Enums pf /\
  pf_Messages pf' = pf_Messages pf /\
  (exists svs, pf_Services pf' = pf_Services pf ++ svs /\
               Forall2 (models_service file) ss svs) /\
  logged st' = logged st.
Proof.
  revert pf st. induction ss as [|s ss IH]; intros pf st H.
  - apply ret_Ok in H. injection H as -> ->.
    repeat split; try done. exists []. by rewrite app_nil_r.
  - cbn [foldM] in H. apply bind_Ok in H as (pf1 & st1 & H1 & H2).
    apply addService_Ok in H1 as (_ & -> & ->).
    destruct (IH _ _ H2) as (-> & -> & -> & (svs & -> & Hsvs) & ->).
    destruct (methods_same_lists (resolver (declare file (service_Name s) st)) file
                (service_Method s) pf) as (? & ? & ? & ? & ?).
    cbn [pf_append_Service pf_Output pf_Enums pf_Messages pf_Services].
    repeat split; try done.
    eexists (_ :: svs). split.
    + rewrite <- app_assoc. cbn. by f_equal.
    + constructor; [|done]. by eexists.
Qed.

(** *** One file *)

Lemma buildFile_phases file st pf st' :
  buildFile file st = Ok (pf, st') <->
  exists pf1 st1 pf2 st2,
    foldM (addEnum file) (file_EnumType file) (new_file file) st = Ok (pf1, st1) /\
    foldM (addMessage file) (file_MessageType file) pf1 st1 = Ok (pf2, st2) /\
    foldM (addService file) (file_Service file) pf2 st2 = Ok (pf, st').
Proof.
  unfold buildFile. fold (new_file file). rewrite bind_Ok. setoid_rewrite bind_Ok.
  split.
  - intros (pf1 & st1 & H1 & pf2 & st2 & H2 & H3). by exists pf1, st1, pf2, st2.
  - intros (pf1 & st1 & pf2 & st2 & H1 & H2 & H3). exists pf1, st1. split; [done|].
    by exists pf2, st2.
Qed.

(** The model of a file, list by list, and the lines the pass logs. *)
Lemma buildFile_shape file st pf st' :
  buildFile file st = Ok (pf, st') ->
  pf_Output pf = tsFileName file /\
  pf_Enums pf = map enumModel (file_EnumType file) /\
  Forall2 (models_message file) (file_MessageType file) (pf_Messages pf) /\
  Forall2 (models_service file) (file_Service file) (pf_Services pf) /\
  logged st' = logged st ++
    repeat nested_warning (length (List.filter hasNestedType (file_MessageType file))).
Proof.
  intros (pf1 & st1 & pf2 & st2 & H1 & H2 & H3)%buildFile_phases.
  apply enums_loop in H1 as (O1 & E1 & M1 & S1 & L1).
  apply messages_loop in H2 as (O2 & E2 & (mvs & M2 & Hmvs) & S2 & L2).
  apply services_loop in H3 as (O3 & E3 & M3 & (svs & S3 & Hsvs) & L3).
  rewrite O3, O2, O1, E3, E2, E1, M3, M2, M1, S3, S2, S1, L3, L2, L1. by cbn.
Qed.

(** The registry only grows, and every import of the file model comes
    from a declaration of another file. *)
Lemma buildFile_grows file st pf st' :
  buildFile file st = Ok (pf, st') ->
  resolver st ⊆ resolver st' /\
  forall key, key ∈ dom (pf_Imports pf) -> import_origin file (resolver st') key.
Proof.
  intros (pf1 & st1 & pf2 & st2 & H1 & H2 & H3)%buildFile_phases.
  apply (loop_grows _ file (addEnum_grows file)) in H1.
  apply (loop_grows _ file (addMessage_grows file)) in H2.
  apply (loop_grows _ file (addService_grows file)) in H3.
  destruct (grows_trans _ _ _ _ (grows_trans _ _ _ _ H1 H2) H3) as (Hr & _ & Ho).
  split; [done|]. intros key Hkey. destruct (Ho key Hkey) as [Hempty|]; [|done].
  cbn in Hempty. set_solver.
Qed.

Lemma fields_import_In d file m fs pf f fp :
  In f fs -> d !! field_TypeName f = Some fp -> file_Name fp <> file_Name file ->
  tsFileName fp ∈ dom (pf_Imports (fold_left (fieldImport d file m) fs pf)).
Proof.
  intros Hin Hfp Hne. apply in_split in Hin as (fs1 & fs2 & ->).
  rewrite fold_left_app. cbn [fold_left].
  set (pf1 := fold_left (fieldImport d file m) fs1 pf).
  destruct (fields_grows file m fs2 (fieldImport d file m pf1 f)
              {| resolver := d; logged := [] |}) as (_ & Hsub & _).
  cbn [fst snd resolver] in Hsub. apply Hsub. unfold fieldImport.
  rewrite importIfForeign_dom, Hfp.
  apply sameFile_false in Hne. rewrite Hne. set_solver.
Qed.

Lemma methods_import_In d file ms pf meth fp :
  In meth ms ->
  d !! method_InputType meth = Some fp \/ d !! method_OutputType meth = Some fp ->
  file_Name fp <> file_Name file ->
  tsFileName fp ∈ dom (pf_Imports (fold_left (methodImport d file) ms pf)).
Proof.
  intros Hin Hfp Hne. apply in_split in Hin as (ms1 & ms2 & ->).
  rewrite fold_left_app. cbn [fold_left].
  set (pf1 := fold_left (methodImport d file) ms1 pf).
  destruct (methods_grows file ms2 (methodImport d file pf1 meth)
              {| resolver := d; logged := [] |}) as (_ & Hsub & _).
  cbn [fst snd resolver] in Hsub. apply Hsub. unfold methodImport.
  rewrite !importIfForeign_dom.
  apply sameFile_false in Hne.
  destruct Hfp as [Hfp|Hfp]; rewrite Hfp, Hne; set_solver.
Qed.

(** A field whose type is already declared by another file leaves an
    import keyed by the output path of that file. *)
Lemma buildFile_import_field file st pf st' m f fp :
  buildFile file st = Ok (pf, st') ->
  In m (file_MessageType file) -> In f (message_Field m) ->
  resolver st !! field_TypeName f = Some fp -> file_Name fp <> file_Name file ->
  tsFileName fp ∈ dom (pf_Imports pf).
Proof.
  intros (pf1 & st1 & pf2 & st2 & H1 & H2 & H3)%buildFile_phases Hm Hf Hfp Hne.
  apply (loop_grows _ file (addEnum_grows file)) in H1 as (Hr1 & _).
  apply (loop_grows _ file (addService_grows file)) in H3 as (_ & Hd3 & _).
  apply Hd3. cbn [fst snd] in *.
  destruct (foldM_In _ _ _ _ _ _ _ Hm H2) as (l1 & l2 & pa & sa & pb & sb & _ & Ha & Hb & Hc).
  apply (loop_grows _ file (addMessage_grows file)) in Ha as (Hra & _).
  apply (loop_grows _ file (addMessage_grows file)) in Hc as (_ & Hdc & _).
  apply Hdc. cbn [fst snd] in *.
  apply addMessage_Ok in Hb as (Hfresh & fvs & _ & -> & _).
  cbn [pf_append_Message pf_Imports].
  apply (fields_import_In _ _ _ _ _ f fp); [done| |done].
  destruct (declareMessage_grows file pa m sa Hfresh) as (Hrm & _).
  cbn [fst snd] in Hrm.
  eapply lookup_weaken; [exact Hfp|]. by etrans; [|etrans].
Qed.

(** The same for the input and output types of a method. *)
Lemma buildFile_import_method file st pf st' s meth fp :
  buildFile file st = Ok (pf, st') ->
  In s (file_Service file) -> In meth (service_Method s) ->
  resolver st !! method_InputType meth = Some fp \/
  resolver st !! method_OutputType meth = Some fp ->
  file_Name fp <> file_Name file ->
  tsFileName fp ∈ dom (pf_Imports pf).
Proof.
  intros (pf1 & st1 & pf2 & st2 & H1 & H2 & H3)%buildFile_phases Hs Hmeth Hfp Hne.
  apply (loop_grows _ file (addEnum_grows file)) in H1 as (Hr1 & _).
  apply (loop_grows _ file (addMessage_grows file)) in H2 as (Hr2 & _).
  cbn [fst snd] in *.
  destruct (foldM_In _ _ _ _ _ _ _ Hs H3) as (l1 & l2 & pa & sa & pb & sb & _ & Ha & Hb & Hc).
  apply (loop_grows _ file (addService_grows file)) in Ha as (Hra & _).
  apply (loop_grows _ file (addService_grows file)) in Hc as (_ & Hdc & _).
  apply Hdc. cbn [fst snd] in *.
  apply addService_Ok in Hb as (Hfresh & -> & _).
  cbn [pf_append_Service pf_Imports].
  apply (methods_import_In _ _ _ _ meth fp); [done| |done].
  destruct (declare_grows file pa file (service_Name s) sa Hfresh) as (Hrm & _).
  cbn [fst snd] in Hrm.
  assert (resolver st ⊆ resolver (declare file (service_Name s) sa)) as Hsub
    by (etrans; [|etrans; [|etrans]]; done).
  destruct Hfp as [Hfp|Hfp]; [left|right]; by eapply lookup_weaken.
Qed.

Lemma filter_none {A} (P : A -> Prop) `{forall x, Decision (P x)} (l : list A) :
  (forall x, x ∈ l -> ~ P x) -> filter P l = [].
Proof.
  intros Hnone. destruct (filter P l) as [|x k] eqn:E; [done|].
  assert (x ∈ filter P l) as [Hx Hin]%list_elem_of_filter by (rewrite E; left).
  by destruct (Hnone x Hin).
Qed.

(** A key of a Go map has one entry. *)
Lemma entries_one pf key :
  key ∈ dom (pf_Imports pf) -> length (entries pf key) = 1.
Proof.
  intros [v Hv]%elem_of_dom. unfold entries.
  rewrite <- (map_to_list_delete _ _ _ Hv).
  rewrite filter_cons_True by done. cbn [length]. f_equal.
  apply length_zero_iff_nil, filter_none.
  intros [k w] Hin%elem_of_map_to_list Hk. cbn in Hk. subst k.
  by rewrite lookup_delete_eq in Hin.
Qed.

Lemma entries_none pf key :
  key ∉ dom (pf_Imports pf) -> entries pf key = [].
Proof.
  intros Hnot. unfold entries. apply filter_none.
  intros [k w] Hin%elem_of_map_to_list Hk. cbn in Hk. subst k.
  apply Hnot, elem_of_dom. by eexists.
Qed.

(** *** The registry after a file *)

Lemma declared_app file names1 names2 d :
  declared file (names1 ++ names2) d = declared file names2 (declared file names1 d).
Proof. apply fold_left_app. Qed.

Lemma declared_lookup_other file names d key :
  ~ In key (map (fullTypeName file) names) -> declared file names d !! key = d !! key.
Proof.
  revert d. induction names as [|n names IH]; intros d Hnot; [done|].
  cbn [declared fold_left]. fold (declared file names (<[fullTypeName file n:=file]> d)).
  rewrite IH by (intros ?; apply Hnot; by right).
  apply lookup_insert_ne. intros E. apply Hnot. by left.
Qed.

Lemma declared_lookup file names d name :
  In name names -> declared file names d !! fullTypeName file name = Some file.
Proof.
  revert d. induction names as [|n names IH]; intros d Hin; [done|].
  cbn [declared fold_left]. fold (declared file names (<[fullTypeName file n:=file]> d)).
  destruct (in_dec String.string_dec name names) as [Hlater|Hnot]; [by apply IH|].
  destruct Hin as [->|Hin]; [|done].
  destruct (in_dec String.string_dec (fullTypeName file name)
                   (map (fullTypeName file) names)) as [Hfull|Hfull].
  - apply in_map_iff in Hfull as (n' & E & Hn'). unfold fullTypeName in E.
    do 3 apply (inj _) in E. by subst n'.
  - rewrite declared_lookup_other by done. apply lookup_insert_eq.
Qed.

Lemma enums_loop_resolver file es pf st pf' st' :
  foldM (addEnum file) es pf st = Ok (pf', st') ->
  resolver st' = declared file (map enum_Name es) (resolver st).
Proof.
  revert pf st. induction es as [|e es IH]; intros pf st H.
  - apply ret_Ok in H. by injection H as -> ->.
  - cbn [foldM] in H. apply bind_Ok in H as (pf1 & st1 & H1 & H2).
    apply addEnum_Ok in H1 as (_ & -> & ->). by rewrite (IH _ _ H2).
Qed.

Lemma messages_loop_resolver file ms pf st pf' st' :
  foldM (addMessage file) ms pf st = Ok (pf', st') ->
  resolver st' = declared file (concat (map messageNames ms)) (resolver st).
Proof.
  revert pf st. induction ms as [|m ms IH]; intros pf st H.
  - apply ret_Ok in H. by injection H as -> ->.
  - cbn [foldM] in H. apply bind_Ok in H as (pf1 & st1 & H1 & H2).
    apply addMessage_Ok in H1 as (_ & fvs & _ & -> & ->). rewrite (IH _ _ H2).
    cbn [map concat]. rewrite declared_app. f_equal. by destruct (hasNestedType m).
Qed.

Lemma services_loop_resolver file ss pf st pf' st' :
  foldM (addService file) ss pf st = Ok (pf', st') ->
  resolver st' = declared file (map service_Name ss) (resolver st).
Proof.
  revert pf st. induction ss as [|s ss IH]; intros pf st H.
  - apply ret_Ok in H. by injection H as -> ->.
  - cbn [foldM] in H. apply bind_Ok in H as (pf1 & st1 & H1 & H2).
    apply addService_Ok in H1 as (_ & -> & ->). by rewrite (IH _ _ H2).
Qed.

(** What the pass declares for a file: its enums, its messages with
    their two interfaces, its services, and nothing else. *)
Lemma buildFile_resolver file st pf st' :
  buildFile file st = Ok (pf, st') ->
  resolver st' = declared file (declaredNames file) (resolver st).
Proof.
  intros (pf1 & st1 & pf2 & st2 & H1 & H2 & H3)%buildFile_phases.
  unfold declaredNames. rewrite !declared_app.
  rewrite (services_loop_resolver _ _ _ _ _ _ H3), (messages_loop_resolver _ _ _ _ _ _ H2).
  by rewrite (enums_loop_resolver _ _ _ _ _ _ H1).
Qed.

(** *** The first loop *)

Lemma buildFile_import file st pf st' name fp :
  buildFile file st = Ok (pf, st') ->
  references file name -> resolver st !! name = Some fp ->
  file_Name fp <> file_Name file ->
  length (entries pf (tsFileName fp)) = 1.
Proof.
  intros Hrun Href Hfp Hne. apply entries_one.
  destruct Href as [(m & f & Hm & Hf & <-)|(s & meth & Hs & Hmeth & Hio)].
  - by eapply buildFile_import_field.
  - eapply buildFile_import_method; try done.
    destruct Hio as [<-|<-]; auto.
Qed.

Lemma addFile_Ok out file st out' st' :
  addFile TypeName importEntry out file st = Ok (out', st') <->
  exists pf, buildFile file st = Ok (pf, st') /\
             out' = <[tsImportPath file := models_at out (tsImportPath file) ++ [pf]]> out.
Proof.
  unfold addFile. rewrite bind_Ok. split.
  - intros (pf & st1 & Hrun & Hret). apply ret_Ok in Hret. injection Hret as -> ->.
    by exists pf.
  - intros (pf & Hrun & ->). by exists pf, st'.
Qed.

Lemma keeps_refl x : keeps x x.
Proof. by split. Qed.

Lemma keeps_trans x y z : keeps x y -> keeps y z -> keeps x z.
Proof. intros [Hr1 Hm1] [Hr2 Hm2]. split; [by etrans|]. auto. Qed.

Lemma addFile_keeps out file st out' st' :
  addFile TypeName importEntry out file st = Ok (out', st') -> keeps (out, st) (out', st').
Proof.
  intros (pf & Hrun & ->)%addFile_Ok. split.
  - by apply buildFile_grows in Hrun as [? _].
  - intros tsPath pf' Hin. cbn [fst] in *. unfold models_at at 1.
    destruct (decide (tsImportPath file = tsPath)) as [<-|Hne].
    + rewrite lookup_insert_eq. cbn. apply in_or_app. by left.
    + by rewrite lookup_insert_ne.
Qed.

Lemma files_keep files out st out' st' :
  foldM (addFile TypeName importEntry) files out st = Ok (out', st') ->
  keeps (out, st) (out', st').
Proof.
  apply (foldM_rel _ keeps); [apply keeps_refl|apply keeps_trans|apply addFile_keeps].
Qed.

(** The model of a file that comes after the file declaring a type it
    refers to has one import entry for that file. *)
Lemma files_import pre A rest B name out0 st0 out st :
  foldM (addFile TypeName importEntry) (pre ++ A :: rest) out0 st0 = Ok (out, st) ->
  In B rest -> In name (declaredNames A) -> references B (fullTypeName A name) ->
  file_Name A <> file_Name B ->
  exists pf, In pf (models_at out (tsImportPath B)) /\
             pf_Output pf = tsFileName B /\
             length (entries pf (tsFileName A)) = 1.
Proof.
  intros Hrun HB Hname Href Hne.
  rewrite foldM_app in Hrun. apply bind_Ok in Hrun as (out1 & st1 & _ & Hrun).
  cbn [foldM] in Hrun. apply bind_Ok in Hrun as (out2 & st2 & HA & Hrun).
  apply addFile_Ok in HA as (pfA & HA & _).
  apply buildFile_resolver in HA.
  destruct (foldM_In _ _ _ _ _ _ _ HB Hrun)
    as (l1 & l2 & oa & sa & ob & sb & _ & Hbefore & Hstep & Hafter).
  apply files_keep in Hbefore as [Hr _]. apply files_keep in Hafter as [_ Hkeep].
  apply addFile_Ok in Hstep as (pf & Hbuild & ->). cbn [fst snd] in *.
  exists pf. split; [|split].
  - apply Hkeep. unfold models_at at 1. rewrite lookup_insert_eq. cbn.
    apply in_or_app. right. by left.
  - by apply buildFile_shape in Hbuild as [? _].
  - eapply buildFile_import; [exact Hbuild|exact Href| |done].
    eapply lookup_weaken; [|exact Hr]. rewrite HA. by apply declared_lookup.
Qed.

(** Every model that the first loop adds is the model of a file of the
    request. *)
Lemma files_models files out st out' st' tsPath pf :
  foldM (addFile TypeName importEntry) files out st = Ok (out', st') ->
  In pf (models_at out' tsPath) ->
  In pf (models_at out tsPath) \/
  exists file st1 st2, In file files /\ buildFile file st1 = Ok (pf, st2).
Proof.
  revert out st. induction files as [|file files IH]; intros out st H Hin.
  - apply ret_Ok in H. injection H as -> ->. by left.
  - cbn [foldM] in H. apply bind_Ok in H as (out1 & st1 & H1 & H2).
    destruct (IH _ _ H2 Hin) as [Hold|(file' & sa & sb & Hfile' & Hbuild)].
    + apply addFile_Ok in H1 as (pf' & Hbuild & ->). unfold models_at at 1 in Hold.
      destruct (decide (tsImportPath file = tsPath)) as [<-|Hne].
      * rewrite lookup_insert_eq in Hold. cbn in Hold.
        apply in_app_or in Hold as [Hold|[<-|[]]]; [by left|right].
        exists file, st, st1. split; [by left|done].
      * rewrite lookup_insert_ne in Hold by done. by left.
    + right. exists file', sa, sb. split; [by right|done].
Qed.

(** The warnings of the first loop: one for every message, of any file,
    that holds nested messages. *)
Lemma files_log files out st out' st' :
  foldM (addFile TypeName importEntry) files out st = Ok (out', st') ->
  logged st' = logged st ++
    repeat nested_warning
      (length (List.filter hasNestedType (concat (map file_MessageType files)))).
Proof.
  revert out st. induction files as [|file files IH]; intros out st H.
  - apply ret_Ok in H. injection H as -> ->. cbn. by rewrite app_nil_r.
  - cbn [foldM] in H. apply bind_Ok in H as (out1 & st1 & H1 & H2).
    apply addFile_Ok in H1 as (pf & Hbuild & ->).
    apply buildFile_shape in Hbuild as (_ & _ & _ & _ & Hlog).
    rewrite (IH _ _ H2), Hlog. cbn [map concat].
    by rewrite List.filter_app, length_app, repeat_app, app_assoc.
Qed.

(** *** The pass returns *)

Lemma fresh_declare fd name names st :
  fresh st (fullTypeName fd name :: names) ->
  resolver st !! fullTypeName fd name = None /\ fresh (declare fd name st) names.
Proof.
  unfold fresh. rewrite NoDup_cons, Forall_cons. intros [[Hnot Hnd] [Hnone Hall]].
  split; [done|]. split; [done|].
  apply Forall_forall. intros x Hx. cbn. rewrite lookup_insert_None. split.
  - by eapply Forall_forall in Hall.
  - intros <-. done.
Qed.

Lemma fresh_app_l st names rest : fresh st (names ++ rest) -> fresh st names.
Proof.
  unfold fresh. rewrite Forall_app. intros [Hnd [Hl _]]. split; [|done].
  by apply NoDup_app in Hnd as [? _].
Qed.

Lemma fresh_declareMessage file m names st :
  fresh st (map (fullTypeName file) (messageNames m) ++ names) ->
  fresh (declareMessage file m st) names.
Proof.
  unfold messageNames, declareMessage. cbn [map app]. intros H.
  apply fresh_declare in H as [_ H]. apply fresh_declare in H as [_ H].
  by apply fresh_declare in H as [_ H].
Qed.

Lemma enums_progress file es rest pf st :
  fresh st (map (fullTypeName file) (map enum_Name es) ++ rest) ->
  exists pf' st', foldM (addEnum file) es pf st = Ok (pf', st') /\ fresh st' rest.
Proof.
  apply (foldM_progress (addEnum file)
           (fun es _ st => fresh st (map (fullTypeName file) (map enum_Name es) ++ rest))).
  clear. intros e es pf st [Hnone Hrest]%fresh_declare.
  eexists _, _. split; [|exact Hrest]. by apply addEnum_Ok.
Qed.

Lemma fieldValuesOf_is_Some d file m f :
  is_Some (camelCase (field_Name f)) -> is_Some (fieldValuesOf d file m f).
Proof. unfold fieldValuesOf. intros [c ->]. by eexists. Qed.

Lemma messages_progress file ms rest pf st :
  fresh st (map (fullTypeName file) (concat (map messageNames ms)) ++ rest) ->
  Forall (fun m => Forall (fun f => is_Some (camelCase (field_Name f))) (message_Field m)) ms ->
  exists pf' st', foldM (addMessage file) ms pf st = Ok (pf', st') /\ fresh st' rest.
Proof.
  intros Hfresh Hcased.
  destruct (foldM_progress (addMessage file)
    (fun ms _ st =>
       fresh st (map (fullTypeName file) (concat (map messageNames ms)) ++ rest) /\
       Forall (fun m => Forall (fun f => is_Some (camelCase (field_Name f)))
                               (message_Field m)) ms)) with (l := ms) (b := pf) (st := st)
    as (pf' & st' & Hrun & Hrest & _); [|done|by exists pf', st'].
  clear. intros m ms pf st [Hfresh Hcased].
  cbn [map concat] in Hfresh. rewrite map_app, <- app_assoc in Hfresh.
  apply Forall_cons in Hcased as [Hm Hms].
  destruct (mapM_is_Some_2 (fieldValuesOf (resolver (declareMessage file m st)) file m)
              (message_Field m)) as [fvs Hfvs].
  { eapply Forall_impl; [exact Hm|]. intros f Hf. by apply fieldValuesOf_is_Some. }
  eexists _, _. split.
  - apply addMessage_Ok. split; [by eapply fresh_app_l|]. by exists fvs.
  - split; [|done]. apply fresh_declareMessage in Hfresh.
    by destruct (hasNestedType m).
Qed.

Lemma services_progress file ss rest pf st :
  fresh st (map (fullTypeName file) (map service_Name ss) ++ rest) ->
  exists pf' st', foldM (addService file) ss pf st = Ok (pf', st') /\ fresh st' rest.
Proof.
  apply (foldM_progress (addService file)
           (fun ss _ st => fresh st (map (fullTypeName file) (map service_Name ss) ++ rest))).
  clear. intros s ss pf st [Hnone Hrest]%fresh_declare.
  eexists _, _. split; [|exact Hrest]. by apply addService_Ok.
Qed.

(** The model of a file is built whenever its declarations are new and
    its field names can be cased, whatever its references resolve to. *)
Lemma buildFile_progress file rest st :
  fresh st (declaredFullNames file ++ rest) -> fieldNamesCased file ->
  exists pf st', buildFile file st = Ok (pf, st') /\ fresh st' rest.
Proof.
  unfold declaredFullNames, declaredNames, fieldNamesCased.
  rewrite !map_app, <- !app_assoc. intros Hfresh Hcased.
  destruct (enums_progress file _ _ (new_file file) st Hfresh) as (pf1 & st1 & H1 & Hf1).
  destruct (messages_progress file _ _ pf1 st1 Hf1 Hcased) as (pf2 & st2 & H2 & Hf2).
  destruct (services_progress file _ _ pf2 st2 Hf2) as (pf3 & st3 & H3 & Hf3).
  exists pf3, st3. split; [|done]. apply buildFile_phases. by exists pf1, st1, pf2, st2.
Qed.

Lemma files_progress files out st :
  fresh st (concat (map declaredFullNames files)) -> Forall fieldNamesCased files ->
  exists out' st', foldM (addFile TypeName importEntry) files out st = Ok (out', st').
Proof.
  intros Hfresh Hcased.
  destruct (foldM_progress (addFile TypeName importEntry)
    (fun files _ st =>
       fresh st (concat (map declaredFullNames files)) /\ Forall fieldNamesCased files))
    with (l := files) (b := out) (st := st) as (out' & st' & Hrun & _);
    [|done|by exists out', st'].
  clear. intros file files out st [Hfresh Hcased]. cbn [map concat] in Hfresh.
  apply Forall_cons in Hcased as [Hfile Hfiles].
  destruct (buildFile_progress file _ st Hfresh Hfile) as (pf & st' & Hrun & Hrest).
  eexists _, st'. split; [|done]. unfold addFile. apply bind_Ok. by exists pf, st'.
Qed.

(** *** The pass returns only then *)

Lemma fresh_declare_inv fd name names st :
  resolver st !! fullTypeName fd name = None -> fresh (declare fd name st) names ->
  fresh st (fullTypeName fd name :: names).
Proof.
  unfold fresh. intros Hnone [Hnd Hall]. rewrite NoDup_cons, Forall_cons.
  split; [split; [|done]|split; [done|]].
  - intros Hin. eapply Forall_forall in Hall; [|exact Hin].
    cbn in Hall. by rewrite lookup_insert_eq in Hall.
  - eapply Forall_impl; [exact Hall|]. intros x Hx. cbn in Hx.
    by apply lookup_insert_None in Hx as [? _].
Qed.

Lemma fresh_declareMessage_inv file m names st :
  fresh st (map (fullTypeName file) (messageNames m)) ->
  fresh (declareMessage file m st) names ->
  fresh st (map (fullTypeName file) (messageNames m) ++ names).
Proof.
  unfold messageNames, declareMessage. cbn [map app]. intros H3 Hrest.
  apply fresh_declare in H3 as [Ha H2]. apply fresh_declare in H2 as [Hb H1].
  apply fresh_declare in H1 as [Hc _].
  by repeat apply fresh_declare_inv.
Qed.

Lemma enums_regress file es rest pf st pf' st' :
  foldM (addEnum file) es pf st = Ok (pf', st') -> fresh st' rest ->
  fresh st (map (fullTypeName file) (map enum_Name es) ++ rest).
Proof.
  apply (foldM_regress (addEnum file)
           (fun es _ st => fresh st (map (fullTypeName file) (map enum_Name es) ++ rest))).
  clear. intros e es pf st pf' st' (Hnone & _ & ->)%addEnum_Ok Hrest.
  by apply fresh_declare_inv.
Qed.

Lemma fieldValuesOf_is_Some_inv d file m f :
  is_Some (fieldValuesOf d file m f) -> is_Some (camelCase (field_Name f)).
Proof. unfold fieldValuesOf. destruct (camelCase (field_Name f)); [by eexists|]. by intros [? ?]. Qed.

Lemma messages_regress file ms rest pf st pf' st' :
  foldM (addMessage file) ms pf st = Ok (pf', st') -> fresh st' rest ->
  fresh st (map (fullTypeName file) (concat (map messageNames ms)) ++ rest) /\
  Forall (fun m => Forall (fun f => is_Some (camelCase (field_Name f))) (message_Field m)) ms.
Proof.
  intros Hrun Hrest.
  refine (foldM_regress (addMessage file)
    (fun ms _ st =>
       fresh st (map (fullTypeName file) (concat (map messageNames ms)) ++ rest) /\
       Forall (fun m => Forall (fun f => is_Some (camelCase (field_Name f)))
                               (message_Field m)) ms) _ ms pf st pf' st' Hrun _); [|by split].
  clear. intros m ms pf st pf' st' (Hfresh & fvs & Hfvs & _ & ->)%addMessage_Ok [Hrest Hcased].
  split.
  - cbn [map concat]. rewrite map_app, <- app_assoc.
    apply fresh_declareMessage_inv; [done|]. by destruct (hasNestedType m).
  - constructor; [|done].
    assert (is_Some (mapM (fieldValuesOf (resolver (declareMessage file m st)) file m)
                          (message_Field m))) as Hsome by (by eexists).
    apply mapM_is_Some_1 in Hsome. eapply Forall_impl; [exact Hsome|].
    intros f. apply fieldValuesOf_is_Some_inv.
Qed.

Lemma services_regress file ss rest pf st pf' st' :
  foldM (addService file) ss pf st = Ok (pf', st') -> fresh st' rest ->
  fresh st (map (fullTypeName file) (map service_Name ss) ++ rest).
Proof.
  apply (foldM_regress (addService file)
           (fun ss _ st => fresh st (map (fullTypeName file) (map service_Name ss) ++ rest))).
  clear. intros s ss pf st pf' st' (Hnone & _ & ->)%addService_Ok Hrest.
  by apply fresh_declare_inv.
Qed.

Lemma buildFile_regress file rest st pf st' :
  buildFile file st = Ok (pf, st') -> fresh st' rest ->
  fresh st (declaredFullNames file ++ rest) /\ fieldNamesCased file.
Proof.
  intros (pf1 & st1 & pf2 & st2 & H1 & H2 & H3)%buildFile_phases Hrest.
  unfold declaredFullNames, declaredNames, fieldNamesCased.
  rewrite !map_app, <- !app_assoc.
  apply (services_regress _ _ _ _ _ _ _ H3) in Hrest.
  apply (messages_regress _ _ _ _ _ _ _ H2) in Hrest as [Hrest Hcased].
  apply (enums_regress _ _ _ _ _ _ _ H1) in Hrest. by split.
Qed.

Lemma files_regress files out st out' st' :
  foldM (addFile TypeName importEntry) files out st = Ok (out', st') ->
  fresh st (concat (map declaredFullNames files)) /\ Forall fieldNamesCased files.
Proof.
  intros Hrun.
  refine (foldM_regress (addFile TypeName importEntry)
    (fun files _ st =>
       fresh st (concat (map declaredFullNames files)) /\ Forall fieldNamesCased files)
    _ files out st out' st' Hrun _).
  - clear. intros file files out st out' st' (pf & Hrun & _)%addFile_Ok [Hrest Hcased].
    apply (buildFile_regress _ _ _ _ _ Hrun) in Hrest as [Hfresh Hfile].
    split; [done|]. by constructor.
  - split; [|done]. split; [apply NoDup_nil_2|done].
Qed.

End Steps.

(** ** The emission *)

Section Emission.

Variable TypeName :
  gmap string FileDescriptorProto -> FileDescriptorProto -> string -> string.
Variable importEntry :
  option importValues -> protoFile -> FileDescriptorProto -> string -> importValues.
Variables twirpFileName twirpSource : string.
Variable protoFile_Compile : protoFile -> option string.
Variable exportValues_Compile : exportValues -> option string.

Local Abbreviation emitFile := (emitFile protoFile_Compile).
Local Abbreviation emitPackage := (emitPackage protoFile_Compile exportValues_Compile).
Local Abbreviation generate :=
  (generate TypeName importEntry twirpFileName twirpSource
            protoFile_Compile exportValues_Compile).
Local Abbreviation fileOf := (fileOf protoFile_Compile).
Local Abbreviation indexOf := (indexOf exportValues_Compile).
Local Abbreviation blockOf := (blockOf protoFile_Compile exportValues_Compile).
Local Abbreviation compiles := (compiles protoFile_Compile exportValues_Compile).

Lemma emitFile_run pf ev files st :
  is_Some (protoFile_Compile pf) ->
  emitFile (ev, files) pf st =
  Ok (({| ev_Exports := ev_Exports ev ++ [exportOf pf] |}, files ++ [fileOf pf]), st).
Proof.
  intros [content Hc]. unfold emitFile, fileOf, bind, or_fatal. by rewrite Hc.
Qed.

Lemma emitFiles_run pff ev files st :
  (forall pf, is_Some (protoFile_Compile pf)) ->
  foldM emitFile pff (ev, files) st =
  Ok (({| ev_Exports := ev_Exports ev ++ map exportOf pff |}, files ++ map fileOf pff), st).
Proof.
  intros Hc. revert ev files. induction pff as [|pf pff IH]; intros ev files.
  - cbn. rewrite !app_nil_r. by destruct ev.
  - cbn [foldM map]. unfold bind at 1. rewrite (emitFile_run _ _ _ _ (Hc pf)), IH.
    cbn [ev_Exports]. by rewrite <- !app_assoc.
Qed.

Lemma emitPackage_run entry files st :
  compiles -> emitPackage files entry st = Ok (files ++ blockOf entry, st).
Proof.
  intros [Hf He]. destruct entry as [tsPath pff].
  unfold emitPackage, blockOf, indexOf, bind. rewrite (emitFiles_run _ _ _ _ Hf).
  cbn [ev_Exports app fst snd].
  destruct (He {| ev_Exports := map exportOf pff |}) as [content Hc].
  unfold or_fatal. rewrite Hc. cbn. by rewrite <- app_assoc.
Qed.

Lemma emission_run order files st :
  compiles ->
  foldM emitPackage order files st = Ok (files ++ concat (map blockOf order), st).
Proof.
  intros Hc. revert files. induction order as [|entry order IH]; intros files.
  - cbn. by rewrite app_nil_r.
  - cbn [foldM map concat]. unfold bind at 1. rewrite (emitPackage_run _ _ _ Hc), IH.
    by rewrite <- app_assoc.
Qed.

Lemma wrote_run files st :
  foldM (fun _ f => log_Printf ("wrote: " +:+ rf_Name f)) files tt st =
  Ok (tt, wrote files st).
Proof.
  unfold wrote. revert st. induction files as [|f files IH]; intros st.
  - cbn. rewrite app_nil_r. by destruct st.
  - cbn [foldM map]. unfold bind at 1, log_Printf at 1. rewrite IH. cbn.
    by rewrite <- app_assoc.
Qed.

(** A run of [generate], given what its first loop returns. *)
Lemma generate_run range req out st :
  compiles ->
  foldM (addFile TypeName importEntry) (ProtoFile req) ∅ initial_state = Ok (out, st) ->
  generate range req initial_state =
  Ok ({| File := {| rf_Name := twirpFileName; rf_Content := twirpSource |}
                 :: concat (map blockOf (range out)) |},
      wrote ({| rf_Name := twirpFileName; rf_Content := twirpSource |}
               :: concat (map blockOf (range out))) st).
Proof.
  intros Hc Hout. unfold generate, bind. rewrite Hout, (emission_run _ _ _ Hc).
  by rewrite wrote_run.
Qed.

(** [generate] returns on the requests whose declarations are distinct
    and whose field names can be cased, and on no other. *)
Lemma generate_returns range req :
  compiles ->
  (exists res st, generate range req initial_state = Ok (res, st)) <->
  NoDup (concat (map declaredFullNames (ProtoFile req))) /\
  Forall fieldNamesCased (ProtoFile req).
Proof.
  intros Hc. split.
  - intros (res & st & Hrun). unfold generate in Hrun.
    apply bind_Ok in Hrun as (out & st1 & Hout & _).
    by apply files_regress in Hout as [[Hnd _] Hcased].
  - intros [Hnd Hcased].
    destruct (files_progress TypeName importEntry (ProtoFile req) ∅ initial_state)
      as (out & st & Hout); [|done|].
    + split; [done|]. apply Forall_forall. intros n _. apply lookup_empty.
    + eexists _, _. by apply generate_run.
Qed.

(** The models of a request whose files all have the package directory
    [tsPath] are held under that one key. *)
Lemma files_one_package tsPath files out st out' st' :
  Forall (fun file => tsImportPath file = tsPath) files ->
  dom out ⊆ {[tsPath]} ->
  foldM (addFile TypeName importEntry) files out st = Ok (out', st') ->
  dom out' ⊆ {[tsPath]}.
Proof.
  intros Hall. revert out st. induction Hall as [|file files Hfile _ IH]; intros out st Hdom H.
  - apply ret_Ok in H. by injection H as -> ->.
  - cbn [foldM] in H. apply bind_Ok in H as (out1 & st1 & H1 & H2).
    apply addFile_Ok in H1 as (pf & _ & ->). eapply IH; [|exact H2].
    rewrite dom_insert_L, Hfile. set_solver.
Qed.

(** With a single package directory there is one order to iterate in, and
    all runs of [generate] return the same response and the same log. *)
Lemma single_package_runs_agree tsPath req res1 log1 res2 log2 :
  Forall (fun file => tsImportPath file = tsPath) (ProtoFile req) ->
  generates TypeName importEntry twirpFileName twirpSource
            protoFile_Compile exportValues_Compile req res1 log1 ->
  generates TypeName importEntry twirpFileName twirpSource
            protoFile_Compile exportValues_Compile req res2 log2 ->
  res1 = res2 /\ log1 = log2.
Proof.
  intros Hall (range1 & st1 & Hperm1 & Hrun1 & <-) (range2 & st2 & Hperm2 & Hrun2 & <-).
  unfold generate in Hrun1, Hrun2.
  apply bind_Ok in Hrun1 as (out & st & Hout & Hrun1).
  apply bind_Ok in Hrun2 as (out' & st' & Hout' & Hrun2).
  rewrite Hout in Hout'. injection Hout' as <- <-.
  assert (range1 out = range2 out) as Hsame.
  { assert (size out <= 1) as Hsize.
    { rewrite <- (size_dom (D := gset string)).
      rewrite <- (size_singleton (C := gset string) tsPath). apply subseteq_size.
      eapply files_one_package; [exact Hall| |exact Hout]. set_solver. }
    specialize (Hperm1 out). specialize (Hperm2 out).
    rewrite <- length_map_to_list in Hsize.
    destruct (map_to_list out) as [|e [|e' l]]; [| |cbn in Hsize; lia].
    - apply Permutation_nil_r in Hperm1, Hperm2. congruence.
    - apply Permutation_singleton_r in Hperm1, Hperm2. congruence. }
  rewrite Hsame in Hrun1. rewrite Hrun1 in Hrun2. by injection Hrun2 as -> ->.
Qed.

End Emission.

(** * The claims of the specification *)

Section Claims.

Variable TypeName :
  gmap string FileDescriptorProto -> FileDescriptorProto -> string -> string.
Variable importEntry :
  option importValues -> protoFile -> FileDescriptorProto -> string -> importValues.
Variables twirpFileName twirpSource : string.
Variable protoFile_Compile : protoFile -> option string.
Variable exportValues_Compile : exportValues -> option string.

Local Abbreviation addField := (addField TypeName importEntry).
Local Abbreviation addMethod := (addMethod TypeName importEntry).
Local Abbreviation buildFile := (buildFile TypeName importEntry).
Local Abbreviation addFile := (addFile TypeName importEntry).
Local Abbreviation generate :=
  (generate TypeName importEntry twirpFileName twirpSource
            protoFile_Compile exportValues_Compile).
Local Abbreviation generates :=
  (generates TypeName importEntry twirpFileName twirpSource
             protoFile_Compile exportValues_Compile).
Local Abbreviation compiles := (compiles protoFile_Compile exportValues_Compile).

(** C1, as amended: a field whose type is the date type of the mapper
    ([Date], what [singularFieldType] gives for the well-known
    Timestamp) is declared with the type [string] in the public
    interface and in the JSON interface alike, and with [string[]] in
    both when it is repeated: both interfaces render the type with
    [fieldType], which degrades [Date] to [string]. *)
Theorem timestamp_field_is_string_in_both_interfaces (f : fieldValues) :
  fv_Type f = "Date" ->
  fieldType f = (if fv_IsRepeated f then "string[]" else "string") /\
  interfaceField f =
    fv_Field f +:+ "?: " +:+ (if fv_IsRepeated f then "string[]" else "string") /\
  jsonInterfaceField f =
    fv_Name f +:+ "?: " +:+ (if fv_IsRepeated f then "string[]" else "string").
Proof.
  intros Hdate. unfold interfaceField, jsonInterfaceField.
  by rewrite (fieldType_Date f Hdate).
Qed.

(** C2: the types [float], [sint32], [sint64], [sfixed32] and [sfixed64]
    are not among the cases of [singularFieldType] that give [number];
    they reach the default case and are mapped to [string]. *)
Theorem float_and_signed_types_fall_back_to_string
    (m : DescriptorProto) (name typeName : string)
    (label : option FieldDescriptorProto_Label) :
  map (fun t => singularFieldType m {| field_Name := name; field_Type := t;
                                       field_TypeName := typeName; field_Label := label |})
      [TYPE_FLOAT; TYPE_SINT32; TYPE_SINT64; TYPE_SFIXED32; TYPE_SFIXED64]
  = ["string"; "string"; "string"; "string"; "string"].
Proof. reflexivity. Qed.

(** C3: on the fully-qualified name of a type of a package with several
    segments, [removePkg] strips the first segment of the package only;
    the other segments stay in front of the local name, joined with
    underscores, so the result is not the local name. *)
Theorem removePkg_keeps_package_tail
    (fd : FileDescriptorProto) (first second : string) (rest : list string) (name : string) :
  file_Package fd = Strings.Join (first :: second :: rest) "." ->
  Forall (fun s => no_byte "." s = true) (first :: second :: rest ++ [name]) ->
  removePkg (fullTypeName fd name) = Strings.Join (second :: rest ++ [name]) "_" /\
  removePkg (fullTypeName fd name) <> name.
Proof.
  intros Hpkg Hdots. unfold fullTypeName. rewrite Hpkg.
  rewrite (removePkg_segments first (second :: rest) name Hdots). split; [done|].
  intros E. apply (f_equal String.length) in E. cbn [app] in E.
  destruct (rest ++ [name]) as [|x l] eqn:Hl; [by destruct rest|].
  rewrite Join_cons, !append_length, <- Hl in E.
  pose proof (Join_snoc_length rest name "_"). cbn [String.length] in E. lia.
Qed.

(** C6: a field or a method whose type name is not in the registry is
    modelled all the same, with the type name that [TypeName] makes of
    the package-stripped name, the imports of the file model stay as
    they are, and the state is untouched; the only way for the field to
    stop the pass is the casing of its own name.  Whether the pass as a
    whole returns is decided by the declared names and the field names
    of the request alone (the declarations are distinct and the field
    names can be cased), not by what its references resolve to, and the
    model of a file holds every message with every field and every
    service with every method. *)
Theorem unresolved_reference_is_absorbed :
  (forall file m pf v f st,
      resolver_Resolve (resolver st) (field_TypeName f) = None ->
      addField file m (pf, v) f st =
      match camelCase (field_Name f) with
      | Some cased =>
          Ok ((pf, mv_append_Field v
                     {| fv_Name := field_Name f;
                        fv_Field := cased;
                        fv_Type := TypeName (resolver st) file (singularFieldType m f);
                        fv_IsEnum := match field_Type f with TYPE_ENUM => true | _ => false end;
                        fv_IsRepeated := isRepeated f |}), st)
      | None => Err SliceBoundsOutOfRange
      end) /\
  (forall file pf v meth st,
      resolver_Resolve (resolver st) (method_InputType meth) = None ->
      resolver_Resolve (resolver st) (method_OutputType meth) = None ->
      addMethod file (pf, v) meth st =
      Ok ((pf, sv_append_Method v
                 {| sm_Name := method_Name meth;
                    sm_InputType :=
                      TypeName (resolver st) file (removePkg (method_InputType meth));
                    sm_OutputType :=
                      TypeName (resolver st) file (removePkg (method_OutputType meth)) |}),
          st)) /\
  (forall range req,
      compiles ->
      (exists res st, generate range req initial_state = Ok (res, st)) <->
      NoDup (concat (map declaredFullNames (ProtoFile req))) /\
      Forall fieldNamesCased (ProtoFile req)) /\
  (forall file st pf st',
      buildFile file st = Ok (pf, st') ->
      Forall2 (fun m mv => length (mv_Fields mv) = length (message_Field m))
              (file_MessageType file) (pf_Messages pf) /\
      Forall2 (fun s sv => length (sv_Methods sv) = length (service_Method s))
              (file_Service file) (pf_Services pf)).
Proof.
  split; [|split; [|split]].
  - intros file m pf v f st Hnone. rewrite addField_run.
    unfold fieldValuesOf, fieldImport. rewrite importIfForeign_unresolved by done.
    by destruct (camelCase (field_Name f)).
  - intros file pf v meth st Hin Hout. rewrite addMethod_run.
    unfold methodImport. by rewrite !importIfForeign_unresolved.
  - intros range req. apply generate_returns.
  - intros file st pf st' (_ & _ & Hms & Hss & _)%buildFile_shape. split.
    + eapply Forall2_impl; [exact Hms|]. intros m mv (d & fvs & Hfvs & ->).
      cbn. symmetry. apply mapM_Some_1 in Hfvs. by eapply Forall2_length.
    + eapply Forall2_impl; [exact Hss|]. intros s sv (d & ->).
      cbn. by rewrite length_map.
Qed.

(** C5, as amended: a reference that resolves to the file under
    construction records no import; every import entry of a file model
    is keyed by the output path of a file with another name that has
    declared a type, so that the model has no entry under its own output
    path unless such a file shares that path; and when the file [A]
    declaring a referenced type comes before the referring file [B] in
    the request, the model of [B] has exactly one entry under the output
    path of [A], however many fields and methods refer to [A]. *)
Theorem import_entries_of_a_file_model :
  (forall d file pf name t fp,
      resolver_Resolve d name = Some fp -> sameFile fp file = true ->
      importIfForeign importEntry d file pf name t = pf) /\
  (forall file st pf st',
      buildFile file st = Ok (pf, st') ->
      (forall key, key ∈ dom (pf_Imports pf) -> import_origin file (resolver st') key) /\
      ((forall name fp, resolver st' !! name = Some fp ->
                        file_Name fp <> file_Name file ->
                        tsFileName fp <> tsFileName file) ->
       entries pf (tsFileName file) = [])) /\
  (forall pre A rest B name out st,
      foldM addFile (pre ++ A :: rest) ∅ initial_state = Ok (out, st) ->
      In B rest -> In name (declaredNames A) -> references B (fullTypeName A name) ->
      file_Name A <> file_Name B ->
      exists pf, In pf (models_at out (tsImportPath B)) /\
                 pf_Output pf = tsFileName B /\
                 length (entries pf (tsFileName A)) = 1).
Proof.
  split; [|split].
  - intros d file pf name t fp. apply importIfForeign_same_file.
  - intros file st pf st' Hrun.
    destruct (buildFile_grows TypeName importEntry _ _ _ _ Hrun) as [_ Horigin].
    split; [done|]. intros Hpaths. apply entries_none. intros Hown.
    destruct (Horigin _ Hown) as (name & fp & Hfp & Hne & Heq).
    by destruct (Hpaths name fp Hfp Hne).
  - intros pre A rest B name out st. apply files_import.
Qed.

(** C7, as amended: a field of a type outside the table ([bytes],
    [group]) is mapped to [string] and modelled with that type, and the
    iteration leaves the log as it is: nothing reports the fallback. *)
Theorem unrecognized_type_falls_back_to_string_silently file m acc f st :
  field_Type f = TYPE_BYTES \/ field_Type f = TYPE_GROUP ->
  singularFieldType m f = "string" /\
  forall r st',
    addField file m acc f st = Ok (r, st') ->
    (exists fv, mv_Fields r.2 = mv_Fields acc.2 ++ [fv] /\
                fv_Type fv = TypeName (resolver st) file "string") /\
    logged st' = logged st.
Proof.
  intros Htype.
  assert (singularFieldType m f = "string") as Hs
    by (unfold singularFieldType; by destruct Htype as [-> | ->]).
  split; [done|]. intros r st'. destruct acc as [pf v]. rewrite addField_run.
  unfold fieldValuesOf. rewrite Hs.
  destruct (camelCase (field_Name f)) as [cased|]; [|discriminate].
  cbn. intros [= <- <-]. split; [|done]. by eexists.
Qed.

(** C8: in the model of a file, the enums of the file are the top-level
    enums under their own names, and every message model holds the
    enums nested in its message, each named by the name of the message,
    an underscore and the name of the enum. *)
Theorem nested_enum_is_named_after_its_message file st pf st' :
  buildFile file st = Ok (pf, st') ->
  pf_Enums pf =
    map (fun enum => {| en_Name := enum_Name enum;
                        en_Values := map enumKeyValOf (enum_Value enum) |})
        (file_EnumType file) /\
  Forall2 (fun m mv =>
             mv_Name mv = message_Name m /\
             mv_NestedEnums mv =
               map (fun enum => {| en_Name := message_Name m +:+ "_" +:+ enum_Name enum;
                                   en_Values := map enumKeyValOf (enum_Value enum) |})
                   (message_EnumType m))
          (file_MessageType file) (pf_Messages pf).
Proof.
  intros (_ & Henums & Hms & _)%buildFile_shape. split; [done|].
  eapply Forall2_impl; [exact Hms|]. by intros m mv (d & fvs & _ & ->).
Qed.

(** C9, as amended: the pass logs one warning for every message of the
    file that holds nested messages, however many it holds; no model has
    nested types, the registry receives the names of the top-level
    declarations only, and every message of the file is modelled, in
    order. *)
Theorem nested_messages_warn_once_per_message file st pf st' :
  buildFile file st = Ok (pf, st') ->
  logged st' = logged st ++
    repeat nested_warning (length (List.filter hasNestedType (file_MessageType file))) /\
  Forall (fun mv => mv_NestedTypes mv = []) (pf_Messages pf) /\
  resolver st' = declared file (declaredNames file) (resolver st) /\
  map mv_Name (pf_Messages pf) = map message_Name (file_MessageType file).
Proof.
  intros Hrun. pose proof (buildFile_resolver TypeName importEntry _ _ _ _ Hrun) as Hres.
  apply buildFile_shape in Hrun as (_ & _ & Hms & _ & Hlog).
  split; [done|]. split; [|split; [done|]].
  - eapply Forall2_Forall_r; [exact Hms|]. apply Forall_forall.
    by intros m _ mv (d & fvs & _ & ->).
  - clear Hlog Hres. revert Hms.
    generalize (file_MessageType file) (pf_Messages pf). intros ms mvs Hms.
    induction Hms as [|m mv ms mvs (d & fvs & _ & ->) _ IH]; [done|].
    cbn. by rewrite IH.
Qed.

(** C10: [camelCase] panics on every name with an empty segment after
    the first, such as a name ending in an underscore or holding two
    underscores in a row, and the pass stops on a field of such a name;
    [methodName] panics on the empty name. *)
Theorem camelCase_panics_on_an_empty_segment (s : string) :
  In "" (List.tail (Strings.Split s "_")) ->
  camelCase s = None /\
  (forall file m acc f st,
      field_Name f = s -> addField file m acc f st = Err SliceBoundsOutOfRange) /\
  methodName "" = None.
Proof.
  intros Hempty%camelCase_None_iff. split; [done|]. split; [|done].
  intros file m [pf v] f st <-. rewrite addField_run.
  unfold fieldValuesOf. by rewrite Hempty.
Qed.

(** C4: on the request with one file in package [a] and one in package
    [b], two runs that iterate over [outputFiles] in different orders
    return different sequences of files. *)
Theorem output_order_depends_on_map_iteration :
  compiles ->
  exists res1 log1 res2 log2,
    generates Sample.request_ab res1 log1 /\
    generates Sample.request_ab res2 log2 /\
    res1 <> res2.
Proof.
  intros Hc.
  let r := eval vm_compute in
             (foldM addFile (ProtoFile Sample.request_ab) ∅ initial_state) in
  match r with
  | Ok (?out, ?st) =>
      assert (foldM addFile (ProtoFile Sample.request_ab) ∅ initial_state = Ok (out, st))
        as Hout by (vm_compute; reflexivity)
  end.
  pose proof (generate_run TypeName importEntry twirpFileName twirpSource
                protoFile_Compile exportValues_Compile Sample.range_up _ _ _ Hc Hout) as Hup.
  pose proof (generate_run TypeName importEntry twirpFileName twirpSource
                protoFile_Compile exportValues_Compile Sample.range_down _ _ _ Hc Hout) as Hdown.
  eexists _, _, _, _. split; [|split].
  - exists Sample.range_up. eexists. split; [|split; [exact Hup|reflexivity]].
    intros m. reflexivity.
  - exists Sample.range_down. eexists. split; [|split; [exact Hdown|reflexivity]].
    intros m. symmetry. apply Permutation_rev.
  - intros E. apply (f_equal (fun r => map rf_Name (File r))) in E.
    vm_compute in E. discriminate E.
Qed.

End Claims.

(** * The claims on concrete inputs *)

Lemma sample_compiles : compiles Sample.Compile_file Sample.Compile_index.
Proof. split; intros x; eexists; reflexivity. Defined.

(** C1: the field [created_at] of the Timestamp type. *)
Lemma timestamp_field_witness :
  fv_Type (Sample.created_at true) = "Date" /\
  (fieldType (Sample.created_at true) = "string[]" /\
   interfaceField (Sample.created_at true) = "createdAt?: string[]" /\
   jsonInterfaceField (Sample.created_at true) = "created_at?: string[]").
Proof.
  split; [reflexivity|].
  apply (timestamp_field_is_string_in_both_interfaces (Sample.created_at true)).
  reflexivity.
Defined.

(** C1 as stated fails: the mapper gives [Date] for a Timestamp field, and
    the public interface declares the field [string], or [string[]] when
    it is repeated, not [Date] or [Date[]]. *)
Lemma timestamp_public_interface_is_not_Date :
  singularFieldType (Sample.message "Event" [])
    (Sample.field "created_at" TYPE_MESSAGE ".google.protobuf.Timestamp") = "Date" /\
  interfaceField (Sample.created_at false) = "createdAt?: string" /\
  interfaceField (Sample.created_at true) = "createdAt?: string[]" /\
  interfaceField (Sample.created_at false) <> "createdAt?: Date" /\
  interfaceField (Sample.created_at true) <> "createdAt?: Date[]" /\
  messageTemplate_interface
    {| mv_Name := "Event"; mv_Interface := "IEvent"; mv_JSONInterface := "IEventJSON";
       mv_Fields := [Sample.created_at false]; mv_NestedTypes := []; mv_NestedEnums := [] |}
  = "export interface IEvent {" +:+ nl +:+
    "  createdAt?: string" +:+ nl +:+
    "  " +:+ nl +:+
    "  toJSON?(): object" +:+ nl +:+
    "}" /\
  messageTemplate_jsonInterface
    {| mv_Name := "Event"; mv_Interface := "IEvent"; mv_JSONInterface := "IEventJSON";
       mv_Fields := [Sample.created_at false]; mv_NestedTypes := []; mv_NestedEnums := [] |}
  = "export interface IEventJSON {" +:+ nl +:+
    "  created_at?: string" +:+ nl +:+
    "}".
Proof. repeat split; try reflexivity; discriminate. Qed.

(** C3: [removePkg] on [.shop.v1.Item]. *)
Lemma removePkg_keeps_package_tail_witness :
  removePkg (fullTypeName Sample.shop_v1 "Item") = "v1_Item" /\
  removePkg (fullTypeName Sample.shop_v1 "Item") <> "Item".
Proof.
  apply (removePkg_keeps_package_tail Sample.shop_v1 "shop" "v1" [] "Item").
  - reflexivity.
  - repeat constructor.
Defined.

(** C4: the two runs, with renderings that succeed. *)
Lemma output_order_witness :
  compiles Sample.Compile_file Sample.Compile_index /\
  exists res1 log1 res2 log2,
    generates Sample.TypeName Sample.importEntry Sample.twirpFileName Sample.twirpSource
      Sample.Compile_file Sample.Compile_index Sample.request_ab res1 log1 /\
    generates Sample.TypeName Sample.importEntry Sample.twirpFileName Sample.twirpSource
      Sample.Compile_file Sample.Compile_index Sample.request_ab res2 log2 /\
    res1 <> res2.
Proof.
  split; [exact sample_compiles|].
  apply (output_order_depends_on_map_iteration Sample.TypeName Sample.importEntry
           Sample.twirpFileName Sample.twirpSource Sample.Compile_file Sample.Compile_index).
  exact sample_compiles.
Defined.

(** C5: [a.proto] before [b.proto]; the model of [b.proto], whose message
    and service refer three times to [a.Foo], has one entry for [a/a.ts]. *)
Lemma import_entries_witness :
  exists out st,
    foldM (addFile Sample.TypeName Sample.importEntry) (ProtoFile Sample.request_ab)
          ∅ initial_state = Ok (out, st) /\
    exists pf, In pf (models_at out (tsImportPath Sample.file_b)) /\
               pf_Output pf = tsFileName Sample.file_b /\
               length (entries pf (tsFileName Sample.file_a)) = 1.
Proof.
  eexists _, _. split; [vm_compute; reflexivity|].
  eapply (proj2 (proj2 (import_entries_of_a_file_model Sample.TypeName Sample.importEntry))
            [] Sample.file_a [Sample.file_b] Sample.file_b "Foo").
  - vm_compute. reflexivity.
  - left. reflexivity.
  - left. reflexivity.
  - left. eexists _, _. split; [left; reflexivity|]. split; [left; reflexivity|reflexivity].
  - discriminate.
Defined.

(** C5 as stated fails: with [b.proto] before [a.proto] in the request,
    the references of [b.proto] to [a.Foo] do not resolve when they are
    processed, and its model has no entry for [a/a.ts]. *)
Lemma import_missing_when_declared_later :
  In "Foo" (declaredNames Sample.file_a) /\
  references Sample.file_b (fullTypeName Sample.file_a "Foo") /\
  exists out st pf,
    foldM (addFile Sample.TypeName Sample.importEntry) (ProtoFile Sample.request_ba)
          ∅ initial_state = Ok (out, st) /\
    models_at out (tsImportPath Sample.file_b) = [pf] /\
    entries pf (tsFileName Sample.file_a) = [].
Proof.
  split; [left; reflexivity|]. split.
  - left. eexists _, _. split; [left; reflexivity|]. split; [left; reflexivity|reflexivity].
  - eexists _, _, _. split; [vm_compute; reflexivity|]. split; vm_compute; reflexivity.
Qed.

(** Two files with different names and the same output path: the import
    that the second records for the first sits under its own output path. *)
Example import_under_shared_output_path :
  tsFileName Sample.file_x1 = tsFileName Sample.file_x2 /\
  exists out st pf,
    foldM (addFile Sample.TypeName Sample.importEntry) [Sample.file_x1; Sample.file_x2]
          ∅ initial_state = Ok (out, st) /\
    List.last (models_at out (tsImportPath Sample.file_x2)) (new_file Sample.file_x2) = pf /\
    pf_Messages pf = [messageModel (Sample.message "Second" [])
                        [{| fv_Name := "first"; fv_Field := "first"; fv_Type := "First";
                            fv_IsEnum := false; fv_IsRepeated := false |}]] /\
    length (entries pf (pf_Output pf)) = 1.
Proof.
  split; [reflexivity|]. eexists _, _, _. split; [vm_compute; reflexivity|].
  split; [reflexivity|]. split; vm_compute; reflexivity.
Qed.

(** C6: [c.proto], whose field [item] and whose method refer to types of
    no file of the request. *)
Lemma unresolved_reference_witness :
  (exists cased,
      camelCase "item" = Some cased /\
      addField Sample.TypeName Sample.importEntry Sample.file_c
        (Sample.message "Order" []) (new_file Sample.file_c, messageModel (Sample.message "Order" []) [])
        (Sample.field "item" TYPE_MESSAGE ".missing.Item") initial_state
      = Ok ((new_file Sample.file_c,
             mv_append_Field (messageModel (Sample.message "Order" []) [])
               {| fv_Name := "item"; fv_Field := cased; fv_Type := "Item";
                  fv_IsEnum := false; fv_IsRepeated := false |}),
            initial_state)) /\
  (exists res st,
      generate Sample.TypeName Sample.importEntry Sample.twirpFileName Sample.twirpSource
        Sample.Compile_file Sample.Compile_index Sample.range_up
        {| ProtoFile := [Sample.file_c; Sample.file_a] |} initial_state = Ok (res, st)).
Proof.
  pose proof (unresolved_reference_is_absorbed Sample.TypeName Sample.importEntry
                Sample.twirpFileName Sample.twirpSource
                Sample.Compile_file Sample.Compile_index) as (Hfield & _ & Hpass & _).
  split.
  - exists "item". split; [reflexivity|].
    apply (Hfield Sample.file_c (Sample.message "Order" []) (new_file Sample.file_c)
             (messageModel (Sample.message "Order" []) [])
             (Sample.field "item" TYPE_MESSAGE ".missing.Item") initial_state).
    reflexivity.
  - apply (Hpass Sample.range_up {| ProtoFile := [Sample.file_c; Sample.file_a] |}).
    + exact sample_compiles.
    + split.
      * apply (bool_decide_unpack _). vm_compute. exact I.
      * repeat constructor; eexists; reflexivity.
Defined.

(** C7: the field [data] of type [bytes]. *)
Lemma unrecognized_type_witness :
  (field_Type (Sample.field "data" TYPE_BYTES "") = TYPE_BYTES \/
   field_Type (Sample.field "data" TYPE_BYTES "") = TYPE_GROUP) /\
  (singularFieldType (Sample.message "Blob" []) (Sample.field "data" TYPE_BYTES "") = "string" /\
   forall r st',
     addField Sample.TypeName Sample.importEntry Sample.file_bytes (Sample.message "Blob" [])
       (new_file Sample.file_bytes, messageModel (Sample.message "Blob" []) [])
       (Sample.field "data" TYPE_BYTES "") initial_state = Ok (r, st') ->
     (exists fv, mv_Fields r.2 = [] ++ [fv] /\ fv_Type fv = "string") /\
     logged st' = []).
Proof.
  split; [left; reflexivity|].
  apply (unrecognized_type_falls_back_to_string_silently Sample.TypeName Sample.importEntry
           Sample.file_bytes (Sample.message "Blob" [])
           (new_file Sample.file_bytes, messageModel (Sample.message "Blob" []) [])
           (Sample.field "data" TYPE_BYTES "") initial_state).
  left. reflexivity.
Defined.

(** C7 as stated fails: the run on a file with a [bytes] field models the
    field as [string] and logs the written files only; no line reports
    the fallback. *)
Lemma bytes_fallback_is_not_logged :
  exists pf st res st',
    buildFile Sample.TypeName Sample.importEntry Sample.file_bytes initial_state = Ok (pf, st) /\
    map (fun mv => map fv_Type (mv_Fields mv)) (pf_Messages pf) = [["string"]] /\
    logged st = [] /\
    generate Sample.TypeName Sample.importEntry Sample.twirpFileName Sample.twirpSource
      Sample.Compile_file Sample.Compile_index Sample.range_up
      {| ProtoFile := [Sample.file_bytes] |} initial_state = Ok (res, st') /\
    logged st' = ["wrote: twirp.ts"; "wrote: blob/blob.ts"; "wrote: blob/index.ts"].
Proof.
  eexists _, _, _, _. split; [vm_compute; reflexivity|].
  split; [reflexivity|]. split; [reflexivity|].
  split; [vm_compute; reflexivity|reflexivity].
Qed.

(** C8: the enum [Status] nested in the message [Order] is modelled under
    the name [Order_Status], in the model of [Order]. *)
Lemma nested_enum_witness :
  exists pf st',
    buildFile Sample.TypeName Sample.importEntry Sample.file_nested initial_state
      = Ok (pf, st') /\
    (pf_Enums pf = [] /\
     Forall2 (fun m mv =>
                mv_Name mv = message_Name m /\
                mv_NestedEnums mv =
                  map (fun enum => {| en_Name := message_Name m +:+ "_" +:+ enum_Name enum;
                                      en_Values := map enumKeyValOf (enum_Value enum) |})
                      (message_EnumType m))
             (file_MessageType Sample.file_nested) (pf_Messages pf)).
Proof.
  eexists _, _. split; [vm_compute; reflexivity|].
  eapply (nested_enum_is_named_after_its_message Sample.TypeName Sample.importEntry
           Sample.file_nested initial_state).
  vm_compute. reflexivity.
Defined.

(** C9: the file whose message [Order] holds two nested messages. *)
Lemma nested_messages_witness :
  exists pf st',
    buildFile Sample.TypeName Sample.importEntry Sample.file_nested initial_state
      = Ok (pf, st') /\
    (logged st' = [nested_warning] /\
     Forall (fun mv => mv_NestedTypes mv = []) (pf_Messages pf) /\
     resolver st' = declared Sample.file_nested (declaredNames Sample.file_nested) ∅ /\
     map mv_Name (pf_Messages pf) = ["Order"; "Invoice"]).
Proof.
  eexists _, _. split; [vm_compute; reflexivity|].
  eapply (nested_messages_warn_once_per_message Sample.TypeName Sample.importEntry
           Sample.file_nested initial_state).
  vm_compute. reflexivity.
Defined.

(** C9 as stated fails: the message [Order] declares two nested messages
    and the pass logs one warning. *)
Lemma two_nested_messages_one_warning :
  length (message_NestedType Sample.order_message) = 2 /\
  map hasNestedType (file_MessageType Sample.file_nested) = [true; false] /\
  exists pf st,
    buildFile Sample.TypeName Sample.importEntry Sample.file_nested initial_state
      = Ok (pf, st) /\
    logged st = [nested_warning].
Proof.
  split; [reflexivity|]. split; [reflexivity|].
  eexists _, _. split; [vm_compute; reflexivity|reflexivity].
Qed.

(** C10: the field name [foo_]. *)
Lemma camelCase_panic_witness :
  In "" (List.tail (Strings.Split "foo_" "_")) /\
  (camelCase "foo_" = None /\
   (forall file m acc f st,
       field_Name f = "foo_" ->
       addField Sample.TypeName Sample.importEntry file m acc f st
       = Err SliceBoundsOutOfRange) /\
   methodName "" = None).
Proof.
  split; [left; reflexivity|].
  apply (camelCase_panics_on_an_empty_segment Sample.TypeName Sample.importEntry "foo_").
  left. reflexivity.
Defined.

(** * Further properties of the source *)

(** ** Strings *)

Lemma append_nil_r (s : string) : s +:+ "" = s.
Proof. induction s as [|a s IH]; [reflexivity|]. by rewrite append_String, IH. Qed.

Lemma no_byte_append c (s t : string) :
  no_byte c (s +:+ t) = no_byte c s && no_byte c t.
Proof.
  induction s as [|a s IH]; [reflexivity|].
  rewrite append_String. cbn [no_byte]. by rewrite IH, andb_assoc.
Qed.

Lemma Split_parts c s : Forall (fun p => no_byte c p = true) (Strings.Split s c).
Proof.
  induction s as [|a s IH]; cbn [Strings.Split]; [by repeat constructor|].
  destruct (Ascii.eqb a c) eqn:Ha; [by constructor|].
  destruct (Strings.Split s c) as [|p ps]; [by repeat constructor; cbn; rewrite Ha|].
  inversion IH as [|? ? Hp Hps]; subst. constructor; [|done].
  cbn [no_byte]. by rewrite Ha, Hp.
Qed.

Lemma Split_append s c t :
  Strings.Split (s +:+ String c t) c = Strings.Split s c ++ Strings.Split t c.
Proof.
  induction s as [|a s IH].
  - simpl. by rewrite Ascii.eqb_refl.
  - rewrite append_String. cbn [Strings.Split]. rewrite IH.
    destruct (Ascii.eqb a c); [done|].
    pose proof (Split_nonempty s c). by destruct (Strings.Split s c).
Qed.

Lemma Join_empty_sep_cons x l : Strings.Join (x :: l) "" = x +:+ Strings.Join l "".
Proof. destruct l; [by rewrite append_nil_r|reflexivity]. Qed.

Lemma Join_empty_sep_app l1 l2 :
  Strings.Join (l1 ++ l2) "" = Strings.Join l1 "" +:+ Strings.Join l2 "".
Proof.
  induction l1 as [|x l1 IH]; [reflexivity|].
  cbn [app]. by rewrite !Join_empty_sep_cons, IH, append_assoc.
Qed.

Lemma no_byte_Join c sep l :
  no_byte c sep = true -> Forall (fun p => no_byte c p = true) l ->
  no_byte c (Strings.Join l sep) = true.
Proof.
  intros Hsep. induction 1 as [|x l Hx Hl IH]; [reflexivity|].
  destruct l as [|y l]; [done|].
  rewrite Join_cons, !no_byte_append, Hx, Hsep. exact IH.
Qed.

(** ** [camelCase] *)

Lemma ToUpper1_no_underscore a :
  Ascii.eqb a "_" = false -> no_byte "_" (Strings.ToUpper1 a) = true.
Proof.
  destruct a as [[] [] [] [] [] [] [] []]; intros H; try reflexivity; discriminate H.
Qed.

Lemma camelCase_parts_app first l1 l2 :
  camelCase_parts first (l1 ++ l2) =
  (r1 ← camelCase_parts first l1;
   r2 ← camelCase_parts (match l1 with [] => first | _ => false end) l2;
   Some (r1 ++ r2)).
Proof.
  revert first. induction l1 as [|p l1 IH]; intros first.
  - cbn. by destruct (camelCase_parts first l2).
  - cbn [app camelCase_parts]. rewrite IH.
    destruct (if first then Some p
              else slice_0_1 p ≫= (fun a => Some (Strings.ToUpper1 a +:+ slice_from_1 p)))
      as [p'|]; [|reflexivity].
    cbn. destruct (camelCase_parts false l1) as [r1|]; [|reflexivity]. cbn.
    assert (camelCase_parts (match l1 with [] => false | _ => false end) l2
            = camelCase_parts false l2) as -> by (by destruct l1).
    by destruct (camelCase_parts false l2).
Qed.

(** A name without underscore is its own camel-case form. *)
Lemma camelCase_plain s : no_byte "_" s = true -> camelCase s = Some s.
Proof. intros H. unfold camelCase. by rewrite (Split_no_byte s "_" H). Qed.

Lemma camelCase_parts_no_underscore first ps rs :
  Forall (fun p => no_byte "_" p = true) ps ->
  camelCase_parts first ps = Some rs ->
  Forall (fun r => no_byte "_" r = true) rs.
Proof.
  intros Hps. revert first rs. induction Hps as [|p ps Hp Hps IH]; intros first rs H.
  - cbn in H. by injection H as <-.
  - cbn [camelCase_parts] in H.
    destruct (if first then Some p
              else slice_0_1 p ≫= (fun a => Some (Strings.ToUpper1 a +:+ slice_from_1 p)))
      as [p'|] eqn:Hp'; [|discriminate].
    cbn in H. destruct (camelCase_parts false ps) as [rs'|] eqn:Hrs; [|discriminate].
    cbn in H. injection H as <-. constructor; [|by eapply IH].
    destruct first; [by injection Hp' as <-|].
    destruct p as [|a p]; [discriminate|]. cbn in Hp'. injection Hp' as <-.
    cbn [no_byte] in Hp. apply andb_prop in Hp as [Ha Hp]. apply negb_true_iff in Ha.
    by rewrite no_byte_append, (ToUpper1_no_underscore a Ha), Hp.
Qed.

(** The camel-case form of a name has no underscore. *)
Lemma camelCase_result_has_no_underscore s r :
  camelCase s = Some r -> no_byte "_" r = true.
Proof.
  unfold camelCase. intros H.
  destruct (camelCase_parts true (Strings.Split s "_")) as [rs|] eqn:Hrs; [|discriminate].
  cbn in H. injection H as <-. apply no_byte_Join; [reflexivity|].
  eapply camelCase_parts_no_underscore; [apply Split_parts|exact Hrs].
Qed.

Lemma camelCase_snoc s p :
  no_byte "_" p = true ->
  camelCase (s +:+ "_" +:+ p) =
  (r ← camelCase s; u ← upperCaseFirst p; Some (r +:+ u)).
Proof.
  intros Hp. unfold camelCase, upperCaseFirst.
  change ("_" +:+ p) with (String "_" p).
  rewrite Split_append, (Split_no_byte p "_" Hp), camelCase_parts_app.
  pose proof (Split_nonempty s "_") as Hne.
  destruct (Strings.Split s "_") as [|x xs] eqn:E; [done|]. clear Hne.
  destruct (camelCase_parts true (x :: xs)) as [r1|]; [|reflexivity].
  cbn [mbind option_bind camelCase_parts].
  destruct (slice_0_1 p) as [a|]; [|reflexivity]. cbn.
  by rewrite Join_empty_sep_app, Join_empty_sep_cons, append_nil_r.
Qed.

(** ** [removePkg] and the field types *)

Lemma SplitN_no_byte s c n : no_byte c s = true -> Strings.SplitN s c (S n) = [s].
Proof.
  revert n. induction s as [|a s IH]; intros n H; [by destruct n|].
  cbn [no_byte] in H. apply andb_prop in H as [Ha Hs]. apply negb_true_iff in Ha.
  destruct n as [|n]; [reflexivity|].
  cbn [Strings.SplitN]. rewrite Ha.
  change (match Strings.SplitN s c (S (S n)) with
          | [] => [String a ""] | p :: ps => String a p :: ps end = [String a s]).
  by rewrite (IH (S n) Hs).
Qed.

Lemma removePkg_has_no_dot s : no_byte "." (removePkg s) = true.
Proof. unfold removePkg. apply no_byte_Join; [reflexivity|apply Split_parts]. Qed.

Lemma removePkg_plain s : no_byte "." s = true -> removePkg s = s.
Proof.
  intros H. unfold removePkg. rewrite (SplitN_no_byte s "." 2 H). cbn [List.last].
  by rewrite (Split_no_byte s "." H).
Qed.

Lemma removePkg_one_dot a b :
  no_byte "." a = true -> no_byte "." b = true -> removePkg (a +:+ "." +:+ b) = b.
Proof.
  intros Ha Hb. unfold removePkg. change ("." +:+ b) with (String "." b).
  rewrite (SplitN_app_sep a "." b 1 Ha), (SplitN_no_byte b "." 1 Hb). cbn [List.last].
  by rewrite (Split_no_byte b "." Hb).
Qed.

Lemma removePkg_two_dots a b rest :
  no_byte "." a = true -> no_byte "." b = true ->
  removePkg (a +:+ "." +:+ b +:+ "." +:+ rest) = Strings.Join (Strings.Split rest ".") "_".
Proof.
  intros Ha Hb. unfold removePkg.
  change ("." +:+ b +:+ "." +:+ rest) with (String "." (b +:+ String "." rest)).
  rewrite (SplitN_app_sep a "." _ 1 Ha), (SplitN_app_sep b "." _ 0 Hb), SplitN_1.
  reflexivity.
Qed.

Lemma singularFieldType_has_no_dot m f : no_byte "." (singularFieldType m f) = true.
Proof.
  unfold singularFieldType.
  destruct (field_Type f); try reflexivity; try apply removePkg_has_no_dot.
  destruct (String.eqb _ _); [reflexivity|apply removePkg_has_no_dot].
Qed.

Lemma fieldType_not_Date f :
  fieldType f <> "Date" /\ (fv_IsRepeated f = true -> fieldType f <> "Date[]").
Proof.
  unfold fieldType. destruct (String.eqb (fv_Type f) "Date") eqn:E.
  - destruct (fv_IsRepeated f); split; intros; discriminate.
  - apply String.eqb_neq in E. destruct (fv_IsRepeated f); split; try done.
    + intros H. pose proof (f_equal String.length H) as HL.
      rewrite append_length in HL.
      destruct (fv_Type f) as [|a [|b [|c t]]]; cbn in HL; try lia.
      cbv [String.append] in H. discriminate H.
    + intros _ H. apply E. pose proof (f_equal String.length H) as HL.
      rewrite append_length in HL.
      destruct (fv_Type f) as [|a [|b [|c [|d [|e t]]]]]; cbn in HL; try lia.
      cbv [String.append] in H. by injection H as -> -> -> ->.
Qed.

(** ** Paths *)

Lemma plain_element_spec s :
  plain_element s = true ->
  s <> "" /\ no_byte "/" s = true /\ s <> "." /\ s <> "..".
Proof.
  unfold plain_element. rewrite !andb_true_iff, !negb_true_iff, !String.eqb_neq. tauto.
Qed.

Lemma package_segment_plain s : package_segment s = true -> plain_element s = true.
Proof.
  unfold package_segment, plain_element.
  rewrite !andb_true_iff, !negb_true_iff, !String.eqb_neq.
  intros [[Hne Hdot] Hslash]. repeat split; try done.
  - intros ->. discriminate Hdot.
  - intros ->. discriminate Hdot.
Qed.

Lemma package_segment_spec s :
  package_segment s = true -> s <> "" /\ no_byte "." s = true /\ no_byte "/" s = true.
Proof.
  unfold package_segment. rewrite !andb_true_iff, !negb_true_iff, !String.eqb_neq. tauto.
Qed.

Lemma clean_step_plain rooted stack e :
  plain_element e = true -> Path.clean_step rooted stack e = e :: stack.
Proof.
  intros (Hne & _ & Hdot & Hdots)%plain_element_spec. unfold Path.clean_step.
  apply String.eqb_neq in Hne, Hdot, Hdots. by rewrite Hne, Hdot, Hdots.
Qed.

Lemma fold_clean_plain rooted l acc :
  Forall (fun e => plain_element e = true) l ->
  fold_left (Path.clean_step rooted) l acc = rev l ++ acc.
Proof.
  intros H. revert acc. induction H as [|e l He _ IH]; intros acc; [reflexivity|].
  cbn [fold_left rev]. by rewrite (clean_step_plain _ _ _ He), IH, <- app_assoc.
Qed.

Lemma Join_head a x l sep :
  exists rest, Strings.Join (String a x :: l) sep = String a rest.
Proof. destruct l; [by exists x|]. rewrite Join_cons, append_String. by eexists. Qed.

(** [path.Clean] leaves a path of plain elements as it is. *)
Lemma Clean_plain x l :
  Forall (fun e => plain_element e = true) (x :: l) ->
  Path.Clean (Strings.Join (x :: l) "/") = Strings.Join (x :: l) "/".
Proof.
  intros Hall.
  assert (Forall (fun e => no_byte "/" e = true) (x :: l)) as Hslash.
  { eapply Forall_impl; [exact Hall|]. by intros e (_ & ? & _)%plain_element_spec. }
  pose proof (Forall_inv Hall) as (Hne & Hx & _)%plain_element_spec.
  destruct x as [|a x]; [done|]. cbn [no_byte] in Hx.
  apply andb_prop in Hx as [Ha _]. apply negb_true_iff in Ha.
  destruct (Join_head a x l "/") as [rest Hrest].
  unfold Path.Clean. rewrite Hrest, Ha, <- Hrest.
  rewrite (Split_Join l "/" (String a x) Hslash), (fold_clean_plain _ _ _ Hall).
  by rewrite app_nil_r, rev_involutive.
Qed.

Lemma PathJoin_plain x l :
  Forall (fun e => plain_element e = true) (x :: l) ->
  Path.Join (x :: l) = Strings.Join (x :: l) "/".
Proof.
  intros Hall. pose proof (Forall_inv Hall) as (Hne & _)%plain_element_spec.
  cbn [Path.Join]. apply String.eqb_neq in Hne. rewrite Hne. by apply Clean_plain.
Qed.

Lemma Join_nonempty x l sep : x <> "" -> Strings.Join (x :: l) sep <> "".
Proof.
  intros Hne H. destruct x as [|a x]; [done|].
  destruct (Join_head a x l sep) as [rest Hrest]. congruence.
Qed.

(** The directory of a package: its segments, joined by slashes. *)
Lemma tsImportPath_segments fd segs :
  file_Package fd = Strings.Join segs "." ->
  Forall (fun s => package_segment s = true) segs ->
  tsImportPath fd = Strings.Join segs "/".
Proof.
  intros Hpkg Hsegs. unfold tsImportPath. rewrite Hpkg.
  destruct segs as [|x l]; [reflexivity|].
  rewrite (Split_Join l "." x).
  - apply PathJoin_plain. eapply Forall_impl; [exact Hsegs|]. apply package_segment_plain.
  - eapply Forall_impl; [exact Hsegs|]. by intros s (_ & ? & _)%package_segment_spec.
Qed.

Lemma relativeImportBase_segments fd segs :
  file_Package fd = Strings.Join segs "." ->
  Forall (fun s => package_segment s = true) segs ->
  relativeImportBase fd = Strings.Repeat "../" (max 1 (length segs)).
Proof.
  intros Hpkg Hsegs. unfold relativeImportBase.
  rewrite (tsImportPath_segments fd segs Hpkg Hsegs).
  destruct segs as [|x l]; [reflexivity|].
  rewrite (Split_Join l "/" x); [reflexivity|].
  eapply Forall_impl; [exact Hsegs|]. by intros s (_ & _ & ?)%package_segment_spec.
Qed.

Lemma ts_file_plain s : no_byte "/" s = true -> plain_element (s +:+ ".ts") = true.
Proof.
  intros Hs. unfold plain_element.
  rewrite no_byte_append, Hs, !andb_true_iff, !negb_true_iff, !String.eqb_neq.
  repeat split; try done; intros E; apply (f_equal String.length) in E;
    rewrite append_length in E; cbn in E; lia.
Qed.

(** The output path of a file: the segments of its package and the stem
    of its name with the extension [.ts], joined by slashes. *)
Lemma tsFileName_segments fd segs :
  file_Package fd = Strings.Join segs "." ->
  Forall (fun s => package_segment s = true) segs ->
  no_byte "/" (stem fd) = true ->
  tsFileName fd = Strings.Join (segs ++ [stem fd +:+ ".ts"]) "/".
Proof.
  intros Hpkg Hsegs Hstem. unfold tsFileName. fold (stem fd).
  rewrite (tsImportPath_segments fd segs Hpkg Hsegs).
  pose proof (ts_file_plain _ Hstem) as Hfile.
  destruct segs as [|x l].
  - cbn [Strings.Join app]. change (Path.Join [""; stem fd +:+ ".ts"])
      with (Path.Join [stem fd +:+ ".ts"]).
    apply PathJoin_plain. by constructor.
  - assert (Forall (fun e => plain_element e = true) (x :: l ++ [stem fd +:+ ".ts"])) as Hall.
    { change (x :: l ++ [stem fd +:+ ".ts"]) with ((x :: l) ++ [stem fd +:+ ".ts"]).
      apply Forall_app. split; [|by constructor].
      eapply Forall_impl; [exact Hsegs|]. apply package_segment_plain. }
    pose proof (Forall_inv Hsegs) as (Hne & _)%package_segment_spec.
    cbn [Path.Join]. pose proof (Join_nonempty x l "/" Hne) as Hj.
    apply String.eqb_neq in Hj. rewrite Hj.
    change (Strings.Join [Strings.Join (x :: l) "/"; stem fd +:+ ".ts"] "/")
      with (Strings.Join (x :: l) "/" +:+ "/" +:+ stem fd +:+ ".ts").
    rewrite Join_snoc. by apply Clean_plain.
Qed.

Lemma chars_append (s t : string) :
  list_ascii_of_string (s +:+ t) = list_ascii_of_string s ++ list_ascii_of_string t.
Proof. induction s as [|a s IH]; [reflexivity|]. rewrite append_String. cbn. by rewrite IH. Qed.

Lemma chars_length (s : string) : length (list_ascii_of_string s) = String.length s.
Proof. induction s as [|a s IH]; [reflexivity|]. cbn. by rewrite IH. Qed.

Lemma string_of_chars_length (l : list ascii) :
  String.length (string_of_list_ascii l) = length l.
Proof. induction l as [|a l IH]; [reflexivity|]. cbn. by rewrite IH. Qed.

Lemma no_byte_chars c s :
  no_byte c s = true -> Forall (fun a => Ascii.eqb a c = false) (list_ascii_of_string s).
Proof.
  induction s as [|a s IH]; cbn; [constructor|].
  intros [Ha Hs]%andb_prop. apply negb_true_iff in Ha. constructor; auto.
Qed.

Lemma until_slash_app l r :
  Forall (fun a => Ascii.eqb a "/" = false) l ->
  Path.until_slash (l ++ "/"%char :: r) = l /\ Path.until_slash l = l.
Proof.
  induction 1 as [|a l Ha _ [IH1 IH2]]; [done|].
  cbn [app Path.until_slash]. by rewrite Ha, IH1, IH2.
Qed.

(** The last element of a path, when it is not empty and has no slash. *)
Lemma Base_last_element q x :
  x <> "" -> no_byte "/" x = true ->
  Path.Base x = x /\ Path.Base (q +:+ "/" +:+ x) = x.
Proof.
  intros Hne Hx.
  assert (forall pre : list ascii,
             pre = [] \/ (exists pre', pre = pre' ++ ["/"%char]) ->
             rev (Path.until_slash (Path.drop_slashes
                    (rev (pre ++ list_ascii_of_string x)))) = list_ascii_of_string x) as Hlist.
  { intros pre Hpre. rewrite rev_app_distr.
    pose proof (no_byte_chars _ _ Hx) as Hall. apply Forall_rev in Hall.
    destruct (rev (list_ascii_of_string x)) as [|a r] eqn:Hr.
    { apply (f_equal (@rev ascii)) in Hr. rewrite rev_involutive in Hr.
      destruct x; [done|discriminate Hr]. }
    pose proof (Forall_inv Hall) as Ha.
    cbn [app Path.drop_slashes]. rewrite Ha.
    assert (Path.until_slash ((a :: r) ++ rev pre) = a :: r) as Hu.
    { destruct Hpre as [->|[pre' ->]].
      - cbn [rev]. rewrite app_nil_r. by apply (until_slash_app (a :: r) []).
      - rewrite rev_app_distr. cbn [rev app].
        by apply (until_slash_app (a :: r) (rev pre')). }
    change (a :: r ++ rev pre) with ((a :: r) ++ rev pre). rewrite Hu, <- Hr.
    apply rev_involutive. }
  assert (forall p : string,
             p <> "" ->
             rev (Path.until_slash (Path.drop_slashes (rev (list_ascii_of_string p))))
             = list_ascii_of_string x -> Path.Base p = x) as Hbase.
  { intros p Hp Hrev. unfold Path.Base. rewrite Hrev.
    destruct p; [done|].
    destruct (list_ascii_of_string x) as [|b l] eqn:Hc;
      [by destruct x|].
    rewrite <- Hc. apply string_of_list_ascii_of_string. }
  split.
  - apply Hbase; [done|]. apply (Hlist []). by left.
  - apply Hbase.
    + intros E. apply (f_equal String.length) in E. rewrite !append_length in E.
      cbn in E. lia.
    + rewrite <- append_assoc, chars_append. apply Hlist. right.
      exists (list_ascii_of_string q). by rewrite chars_append.
Qed.

Lemma substring_whole (t : string) : String.substring 0 (String.length t) t = t.
Proof. induction t as [|a t IH]; [reflexivity|]. cbn. by rewrite IH. Qed.

Lemma substring_prefix (s t : string) : String.substring 0 (String.length s) (s +:+ t) = s.
Proof.
  induction s as [|a s IH]; [by destruct t|]. rewrite append_String. cbn. by rewrite IH.
Qed.

Lemma substring_skip (s t : string) n :
  String.substring (String.length s) n (s +:+ t) = String.substring 0 n t.
Proof. induction s as [|a s IH]; [reflexivity|]. rewrite append_String. cbn. exact IH. Qed.

(** [strings.TrimSuffix] takes a suffix off. *)
Lemma TrimSuffix_append (s t : string) : Strings.TrimSuffix (s +:+ t) t = s.
Proof.
  unfold Strings.TrimSuffix, Strings.HasSuffix. rewrite append_length.
  replace (String.length s + String.length t - String.length t) with (String.length s) by lia.
  rewrite substring_skip, substring_whole, String.eqb_refl, substring_prefix.
  replace (String.length t <=? String.length s + String.length t)%nat with true; [done|].
  symmetry. apply Nat.leb_le. lia.
Qed.

Lemma ext_rev_scan l r acc :
  Forall (fun a => Ascii.eqb a "/" = false /\ Ascii.eqb a "." = false) l ->
  Path.ext_rev (rev l ++ r) acc = Path.ext_rev r (l ++ acc).
Proof.
  revert acc. induction l as [|a l IH] using rev_ind; intros acc H; [reflexivity|].
  apply Forall_app in H as [Hl Ha]. apply Forall_inv in Ha as [Hs Hd].
  rewrite rev_app_distr. cbn [rev app Path.ext_rev]. rewrite Hs, Hd, (IH _ Hl).
  by rewrite <- app_assoc.
Qed.

Lemma ext_rev_length r acc :
  length (Path.ext_rev r acc) <= length r + length acc.
Proof.
  revert acc. induction r as [|a r IH]; intros acc; cbn [Path.ext_rev length]; [lia|].
  destruct (Ascii.eqb a "/"); [cbn; lia|].
  destruct (Ascii.eqb a "."); [cbn; lia|].
  specialize (IH (a :: acc)). cbn in IH. lia.
Qed.

(** The extension is never longer than the path. *)
Lemma Ext_length p : String.length (Path.Ext p) <= String.length p.
Proof.
  unfold Path.Ext. rewrite string_of_chars_length.
  pose proof (ext_rev_length (rev (list_ascii_of_string p)) []) as H.
  rewrite length_rev, chars_length in H. cbn in H. lia.
Qed.

Lemma plain_chars x :
  no_byte "/" x = true -> no_byte "." x = true ->
  Forall (fun a => Ascii.eqb a "/" = false /\ Ascii.eqb a "." = false)
         (list_ascii_of_string x).
Proof.
  intros Hs Hd. apply no_byte_chars in Hs, Hd.
  apply Forall_forall. intros a Ha.
  rewrite Forall_forall in Hs, Hd. by split; [apply Hs|apply Hd].
Qed.

(** The extension of a name: nothing without a dot, otherwise what
    starts at the last dot. *)
Lemma Ext_last_dot q x :
  no_byte "/" x = true -> no_byte "." x = true ->
  Path.Ext x = "" /\ Path.Ext (q +:+ "." +:+ x) = "." +:+ x.
Proof.
  intros Hs Hd. pose proof (plain_chars x Hs Hd) as Hall. unfold Path.Ext. split.
  - pose proof (ext_rev_scan _ [] [] Hall) as H. rewrite app_nil_r in H. by rewrite H.
  - rewrite <- append_assoc, chars_append, rev_app_distr, chars_append, rev_app_distr.
    rewrite (ext_rev_scan _ _ _ Hall). cbn. rewrite app_nil_r.
    by rewrite string_of_list_ascii_of_string.
Qed.

Lemma exportOf_tsFileName pf fd segs :
  pf_Output pf = tsFileName fd ->
  file_Package fd = Strings.Join segs "." ->
  Forall (fun s => package_segment s = true) segs ->
  no_byte "/" (stem fd) = true ->
  exportOf pf = stem fd.
Proof.
  intros Hout Hpkg Hsegs Hstem. unfold exportOf.
  rewrite Hout, (tsFileName_segments fd segs Hpkg Hsegs Hstem).
  pose proof (ts_file_plain _ Hstem) as (Hne & Hslash & _)%plain_element_spec.
  assert (Path.Base (Strings.Join (segs ++ [stem fd +:+ ".ts"]) "/") = stem fd +:+ ".ts")
    as ->.
  { destruct segs as [|x l].
    - by apply (Base_last_element "").
    - cbn [app]. rewrite <- Join_snoc. by apply Base_last_element. }
  apply TrimSuffix_append.
Qed.

Lemma tsImportName_total name : is_Some (tsImportName name).
Proof.
  unfold tsImportName. pose proof (Ext_length (Path.Base name)) as H.
  apply Nat.leb_le in H. rewrite H. by eexists.
Qed.

Lemma tsImportName_segments init last :
  Forall (fun s => package_segment s = true) (init ++ [last]) ->
  tsImportName (Strings.Join (init ++ [last]) ".") =
  Some (match init with [] => last | _ => Strings.Join init "." end).
Proof.
  intros Hall. apply Forall_app in Hall as [Hinit Hlast].
  apply Forall_inv in Hlast as (Hne & Hdot & Hslash)%package_segment_spec.
  unfold tsImportName. destruct init as [|x l].
  - cbn [app Strings.Join].
    destruct (Base_last_element "" last Hne Hslash) as [-> _].
    destruct (Ext_last_dot "" last Hslash Hdot) as [-> _]. cbn [String.length].
    by rewrite Nat.sub_0_r, substring_whole.
  - cbn [app]. rewrite <- Join_snoc. set (q := Strings.Join (x :: l) ".").
    assert (no_byte "/" (q +:+ "." +:+ last) = true) as Hs.
    { unfold q. rewrite Join_snoc. apply no_byte_Join; [reflexivity|].
      change (x :: l ++ [last]) with ((x :: l) ++ [last]). apply Forall_app. split.
      - eapply Forall_impl; [exact Hinit|]. by intros s (_ & _ & ?)%package_segment_spec.
      - by constructor. }
    assert (q +:+ "." +:+ last <> "") as Hq.
    { intros E. apply (f_equal String.length) in E. rewrite !append_length in E.
      cbn in E. lia. }
    destruct (Base_last_element "" _ Hq Hs) as [-> _].
    destruct (Ext_last_dot q last Hslash Hdot) as [_ ->].
    rewrite !append_length.
    replace (String.length q + (String.length "." + String.length last)
             - (String.length "." + String.length last)) with (String.length q) by lia.
    rewrite substring_prefix.
    replace (String.length "." + String.length last
             <=? String.length q + (String.length "." + String.length last))%nat with true;
      [done|].
    symmetry. apply Nat.leb_le. lia.
Qed.

(** ** The templates' helpers *)

Lemma objectToField_total fv : is_Some (objectToField fv).
Proof.
  unfold objectToField, scalarName.
  set (t := if String.eqb (fv_Type fv) "Date" then "string" else fv_Type fv).
  destruct (fv_IsRepeated fv); [|by destruct (_ || _); eexists].
  destruct (String.eqb t "string") eqn:E1.
  { apply String.eqb_eq in E1. rewrite E1. by eexists. }
  destruct (String.eqb t "number") eqn:E2.
  { apply String.eqb_eq in E2. rewrite E2. by eexists. }
  destruct (String.eqb t "boolean") eqn:E3.
  { apply String.eqb_eq in E3. rewrite E3. by eexists. }
  by eexists.
Qed.

Lemma string_length_neq (s t : string) : String.length s <> String.length t -> s <> t.
Proof. by intros H ->. Qed.

Lemma messageNames_NoDup m : NoDup (messageNames m).
Proof.
  unfold messageNames, typeToJSONInterface, typeToInterface.
  rewrite !NoDup_cons, !list_elem_of_In. cbn [In].
  split; [|split; [|split; [tauto|apply NoDup_nil_2]]].
  - intros [H|[H|[]]]; apply (f_equal String.length) in H;
      rewrite ?append_length in H; cbn in H; lia.
  - intros [H|[]]. apply (f_equal String.length) in H.
    rewrite ?append_length in H. cbn in H. lia.
Qed.

Lemma fullTypeName_inj fd a b : fullTypeName fd a = fullTypeName fd b -> a = b.
Proof. unfold fullTypeName. intros H. by do 3 apply (inj _) in H. Qed.

(** ** The pass and the emission, once more *)

Section Runs.

Variable TypeName :
  gmap string FileDescriptorProto -> FileDescriptorProto -> string -> string.
Variable importEntry :
  option importValues -> protoFile -> FileDescriptorProto -> string -> importValues.
Variables twirpFileName twirpSource : string.
Variable protoFile_Compile : protoFile -> option string.
Variable exportValues_Compile : exportValues -> option string.

Local Abbreviation buildFile := (buildFile TypeName importEntry).
Local Abbreviation addFile := (addFile TypeName importEntry).
Local Abbreviation emitFile := (emitFile protoFile_Compile).
Local Abbreviation emitPackage := (emitPackage protoFile_Compile exportValues_Compile).
Local Abbreviation generate :=
  (generate TypeName importEntry twirpFileName twirpSource
            protoFile_Compile exportValues_Compile).
Local Abbreviation generates :=
  (generates TypeName importEntry twirpFileName twirpSource
             protoFile_Compile exportValues_Compile).
Local Abbreviation fileOf := (fileOf protoFile_Compile).
Local Abbreviation blockOf := (blockOf protoFile_Compile exportValues_Compile).

Lemma emitFiles_Ok pff ev files st ev' files' st' :
  foldM emitFile pff (ev, files) st = Ok ((ev', files'), st') ->
  ev_Exports ev' = ev_Exports ev ++ map exportOf pff /\
  files' = files ++ map fileOf pff /\ st' = st.
Proof.
  revert ev files. induction pff as [|pf pff IH]; intros ev files H.
  - apply ret_Ok in H. injection H as -> -> ->. by rewrite !app_nil_r.
  - cbn [foldM] in H. apply bind_Ok in H as ([ev1 files1] & st1 & H1 & H2).
    unfold emitFile, bind, or_fatal in H1.
    destruct (protoFile_Compile pf) as [content|] eqn:Hc; [|discriminate].
    cbn in H1. injection H1 as <- <- <-.
    destruct (IH _ _ H2) as (-> & -> & ->). cbn [ev_Exports map].
    unfold fileOf. rewrite Hc. cbn. by rewrite <- !app_assoc.
Qed.

Lemma emitPackage_Ok entry files st files' st' :
  emitPackage files entry st = Ok (files', st') ->
  files' = files ++ blockOf entry /\ st' = st.
Proof.
  destruct entry as [tsPath pff]. unfold emitPackage. intros H.
  apply bind_Ok in H as ([ev files1] & st1 & H1 & H2).
  apply emitFiles_Ok in H1 as (Hev & -> & ->).
  destruct ev as [exports]. cbn [ev_Exports app] in Hev. subst exports.
  apply bind_Ok in H2 as (content & st2 & Hc & H2).
  unfold or_fatal in Hc.
  destruct (exportValues_Compile {| ev_Exports := map exportOf pff |}) as [c|] eqn:Hcomp;
    [|discriminate].
  apply ret_Ok in Hc. injection Hc as -> ->. apply ret_Ok in H2.
  injection H2 as Hfiles Hst. split; [|done]. subst files'.
  unfold blockOf, indexOf. cbn [fst snd]. rewrite Hcomp. cbn [default].
  by rewrite <- app_assoc.
Qed.

Lemma emission_Ok order files st files' st' :
  foldM emitPackage order files st = Ok (files', st') ->
  files' = files ++ concat (map blockOf order) /\ st' = st.
Proof.
  revert files. induction order as [|entry order IH]; intros files H.
  - apply ret_Ok in H. injection H as -> ->. by rewrite app_nil_r.
  - cbn [foldM] in H. apply bind_Ok in H as (files1 & st1 & H1 & H2).
    apply emitPackage_Ok in H1 as [-> ->]. destruct (IH _ H2) as [-> ->].
    cbn [map concat]. by rewrite <- app_assoc.
Qed.

(** A run of [generate] that returns: the first loop returned, and the
    response and the log are those of the emission over its result. *)
Lemma generate_Ok range req res st' :
  generate range req initial_state = Ok (res, st') ->
  exists out st,
    foldM addFile (ProtoFile req) ∅ initial_state = Ok (out, st) /\
    File res = {| rf_Name := twirpFileName; rf_Content := twirpSource |}
               :: concat (map blockOf (range out)) /\
    st' = wrote (File res) st.
Proof.
  unfold generate. intros H. apply bind_Ok in H as (out & st & Hout & H).
  apply bind_Ok in H as (files & st1 & Hemit & H).
  apply emission_Ok in Hemit as [-> ->].
  apply bind_Ok in H as ([] & st2 & Hlog & H).
  rewrite wrote_run in Hlog. injection Hlog as Hst2.
  apply ret_Ok in H. injection H as Hres Hst'. subst res st' st2. by exists out, st.
Qed.

Lemma blockOf_names entry : map rf_Name (blockOf entry) = blockNames entry.
Proof. unfold blockOf, blockNames. rewrite map_app, map_map. reflexivity. Qed.

Lemma concat_blockOf_names order :
  map rf_Name (concat (map blockOf order)) = concat (map blockNames order).
Proof.
  induction order as [|e order IH]; [reflexivity|].
  cbn [map concat]. by rewrite map_app, blockOf_names, IH.
Qed.

Lemma Permutation_concat {A} (l1 l2 : list (list A)) :
  Permutation l1 l2 -> Permutation (concat l1) (concat l2).
Proof.
  induction 1 as [|x l l' _ IH|x y l|l l' l'' _ IH1 _ IH2]; cbn [concat].
  - done.
  - by rewrite IH.
  - rewrite !app_assoc. f_equiv. apply Permutation_app_comm.
  - by etrans.
Qed.

Lemma models_count_insert out tsPath pf :
  models_count (<[tsPath := models_at out tsPath ++ [pf]]> out) = S (models_count out).
Proof.
  unfold models_count, models_at. destruct (out !! tsPath) as [l|] eqn:Hl; cbn [default].
  - rewrite <- (insert_delete_eq out), <- (map_to_list_delete out tsPath l Hl).
    rewrite map_to_list_insert by apply lookup_delete_eq.
    cbn [sum_list_with snd]. rewrite length_app. cbn. lia.
  - rewrite map_to_list_insert by done. reflexivity.
Qed.

(** The first loop adds one model for every file. *)
Lemma files_count files out st out' st' :
  foldM addFile files out st = Ok (out', st') ->
  models_count out' = models_count out + length files.
Proof.
  revert out st. induction files as [|file files IH]; intros out st H.
  - apply ret_Ok in H. injection H as -> ->. cbn. lia.
  - cbn [foldM] in H. apply bind_Ok in H as (out1 & st1 & H1 & H2).
    apply addFile_Ok in H1 as (pf & _ & ->).
    rewrite (IH _ _ H2), models_count_insert. cbn. lia.
Qed.

(** The keys of [outputFiles] are the package directories of the files. *)
Lemma files_dom files out st out' st' :
  foldM addFile files out st = Ok (out', st') ->
  dom out' = dom out ∪ list_to_set (map tsImportPath files).
Proof.
  revert out st. induction files as [|file files IH]; intros out st H.
  - apply ret_Ok in H. injection H as -> ->. cbn. set_solver.
  - cbn [foldM] in H. apply bind_Ok in H as (out1 & st1 & H1 & H2).
    apply addFile_Ok in H1 as (pf & _ & ->).
    rewrite (IH _ _ H2), dom_insert_L. cbn [map]. rewrite list_to_set_cons. set_solver.
Qed.

Lemma models_at_insert (out : gmap string (list protoFile)) key l tsPath :
  models_at (<[key := l]> out) tsPath =
  if decide (key = tsPath) then l else models_at out tsPath.
Proof.
  unfold models_at. destruct (decide (key = tsPath)) as [->|Hne].
  - by rewrite lookup_insert_eq.
  - by rewrite lookup_insert_ne.
Qed.

(** Under a package directory, [outputFiles] holds the models of the
    files of that directory, in the order of the request. *)
Lemma files_outputs files out st out' st' tsPath :
  foldM addFile files out st = Ok (out', st') ->
  map pf_Output (models_at out' tsPath) =
  map pf_Output (models_at out tsPath) ++
  map tsFileName (filter (fun file => tsImportPath file = tsPath) files).
Proof.
  revert out st. induction files as [|file files IH]; intros out st H.
  - apply ret_Ok in H. injection H as -> ->. by rewrite app_nil_r.
  - cbn [foldM] in H. apply bind_Ok in H as (out1 & st1 & H1 & H2).
    apply addFile_Ok in H1 as (pf & Hbuild & ->).
    apply buildFile_shape in Hbuild as (Hout & _).
    rewrite (IH _ _ H2), models_at_insert.
    destruct (decide (tsImportPath file = tsPath)) as [Heq|Hne].
    + rewrite filter_cons_True by done. rewrite map_app. cbn [map].
      by rewrite Hout, Heq, <- app_assoc.
    + by rewrite filter_cons_False by done.
Qed.

Lemma concat_blockOf_length order :
  length (concat (map blockOf order)) =
  sum_list_with (fun entry : string * list protoFile => length entry.2) order + length order.
Proof.
  induction order as [|e order IH]; [reflexivity|].
  cbn [map concat sum_list_with length]. rewrite length_app, IH.
  unfold blockOf. rewrite length_app, length_map. cbn. lia.
Qed.

Lemma sum_list_with_Permutation {A} (f : A -> nat) l1 l2 :
  Permutation l1 l2 -> sum_list_with f l1 = sum_list_with f l2.
Proof. induction 1; cbn; lia. Qed.

Lemma range_keys range (out : gmap string (list protoFile)) :
  map_order range ->
  NoDup (map fst (range out)) /\
  (forall p, In p (map fst (range out)) <-> p ∈ dom out) /\
  (forall e, In e (range out) -> models_at out e.1 = e.2).
Proof.
  intros Hrange. pose proof (Hrange out) as Hperm. split; [|split].
  - rewrite (Permutation_map fst Hperm). apply (NoDup_fst_map_to_list out).
  - intros p. rewrite elem_of_dom, in_map_iff. split.
    + intros ([k l] & <- & Hin). exists l. apply elem_of_map_to_list.
      rewrite <- Hperm. by apply list_elem_of_In.
    + intros [l Hl]. exists (p, l). split; [reflexivity|].
      apply list_elem_of_In. rewrite Hperm. by apply elem_of_map_to_list.
  - intros [k l] Hin. unfold models_at. cbn.
    apply list_elem_of_In in Hin. rewrite Hperm in Hin.
    apply elem_of_map_to_list in Hin. by rewrite Hin.
Qed.

(** X19: the log of a run that returns is one warning for every message
    of the request that holds nested messages, then one line for every
    file of the response, in the order of the response. *)
Theorem log_of_a_run (req : CodeGeneratorRequest) (res : CodeGeneratorResponse)
    (log : list string) :
  generates req res log ->
  log = repeat nested_warning
          (length (List.filter hasNestedType (concat (map file_MessageType (ProtoFile req)))))
        ++ map (fun f => "wrote: " +:+ rf_Name f) (File res).
Proof.
  intros (range & st' & _ & Hrun & <-).
  apply generate_Ok in Hrun as (out & st & Hout & _ & ->).
  apply (files_log TypeName importEntry) in Hout. cbn [wrote logged]. by rewrite Hout.
Qed.

(** X20: two runs on the same request return the same files and the same
    log lines, up to their order. *)
Theorem runs_return_the_same_files (req : CodeGeneratorRequest)
    (res1 res2 : CodeGeneratorResponse) (log1 log2 : list string) :
  generates req res1 log1 -> generates req res2 log2 ->
  Permutation (File res1) (File res2) /\ Permutation log1 log2.
Proof.
  intros (range1 & st1 & Hr1 & Hrun1 & <-) (range2 & st2 & Hr2 & Hrun2 & <-).
  apply generate_Ok in Hrun1 as (out1 & s1 & Hout1 & Hres1 & ->).
  apply generate_Ok in Hrun2 as (out2 & s2 & Hout2 & Hres2 & ->).
  rewrite Hout1 in Hout2. injection Hout2 as <- <-.
  assert (Permutation (File res1) (File res2)) as Hperm.
  { rewrite Hres1, Hres2. constructor. apply Permutation_concat, Permutation_map.
    by rewrite (Hr1 out1), (Hr2 out1). }
  split; [done|]. cbn [wrote logged].
  apply Permutation_app_head, Permutation_map, Hperm.
Qed.

(** X21: the names of the files of a response: the run-time file first,
    then, for every package directory of the request, once, the output
    paths of the files of that directory in the order of the request,
    followed by the index of the directory. *)
Theorem response_names (req : CodeGeneratorRequest) (res : CodeGeneratorResponse)
    (log : list string) :
  generates req res log ->
  exists order,
    NoDup order /\
    (forall p, In p order <-> In p (map tsImportPath (ProtoFile req))) /\
    map rf_Name (File res) =
    twirpFileName ::
    concat (map (fun p => map tsFileName
                            (List.filter (fun file => String.eqb (tsImportPath file) p)
                                         (ProtoFile req))
                          ++ [Path.Join [p; "index.ts"]]) order).
Proof.
  intros (range & st' & Hrange & Hrun & _).
  apply generate_Ok in Hrun as (out & st & Hout & Hres & _).
  destruct (range_keys range out Hrange) as (Hnd & Hdom & Hat).
  exists (map fst (range out)). split; [done|]. split.
  - intros p. rewrite Hdom, (files_dom _ _ _ _ _ Hout), dom_empty_L, <- list_elem_of_In.
    set_solver.
  - rewrite Hres. cbn [map rf_Name]. f_equal.
    rewrite concat_blockOf_names, map_map. f_equal.
    apply map_ext_in. intros e Hin. unfold blockNames. f_equal.
    rewrite <- (Hat e Hin), (files_outputs _ _ _ _ _ e.1 Hout).
    unfold models_at at 1. rewrite lookup_empty. cbn [default map app]. f_equal.
    clear. induction (ProtoFile req) as [|file files IH]; [reflexivity|].
    cbn [List.filter]. destruct (String.eqb_spec (tsImportPath file) e.1) as [Heq|Hne].
    + rewrite filter_cons_True by done. by rewrite IH.
    + rewrite filter_cons_False by done. exact IH.
Qed.

(** X22: a response holds the run-time file, one file for every file of
    the request and one index for every package directory. *)
Theorem response_size (req : CodeGeneratorRequest) (res : CodeGeneratorResponse)
    (log : list string) :
  generates req res log ->
  length (File res) =
  1 + length (ProtoFile req) +
  size (list_to_set (map tsImportPath (ProtoFile req)) : gset string).
Proof.
  intros (range & st' & Hrange & Hrun & _).
  apply generate_Ok in Hrun as (out & st & Hout & Hres & _).
  rewrite Hres. cbn [length]. rewrite concat_blockOf_length.
  rewrite (sum_list_with_Permutation _ _ _ (Hrange out)).
  rewrite (Permutation_length (Hrange out)), length_map_to_list.
  pose proof (files_count _ _ _ _ _ Hout) as Hcount. unfold models_count in Hcount.
  rewrite Hcount, map_to_list_empty. cbn [sum_list_with].
  rewrite <- (size_dom (D := gset string) out), (files_dom _ _ _ _ _ Hout), dom_empty_L.
  rewrite (left_id_L ∅ (∪)). lia.
Qed.

(** X23: when all the files of a request are of one package directory,
    the response and the log do not depend on the order in which the map
    is iterated. *)
Theorem single_package_is_deterministic (tsPath : string) (req : CodeGeneratorRequest)
    (res1 res2 : CodeGeneratorResponse) (log1 log2 : list string) :
  Forall (fun file => tsImportPath file = tsPath) (ProtoFile req) ->
  generates req res1 log1 -> generates req res2 log2 ->
  res1 = res2 /\ log1 = log2.
Proof.
  apply (single_package_runs_agree TypeName importEntry twirpFileName twirpSource
           protoFile_Compile exportValues_Compile).
Qed.

(** X24: the model of a file mirrors its declarations, one model for
    each and in their order: every enum, message, service and method
    under its own name, every field under its wire name together with the
    camel-case form of that name and its repetition. *)
Theorem file_model_mirrors_the_declarations (file : FileDescriptorProto)
    (st : State) (pf : protoFile) (st' : State) :
  buildFile file st = Ok (pf, st') ->
  map en_Name (pf_Enums pf) = map enum_Name (file_EnumType file) /\
  Forall2 (fun m mv =>
             mv_Name mv = message_Name m /\
             Forall2 (fun f fv => fv_Name fv = field_Name f /\
                                  camelCase (field_Name f) = Some (fv_Field fv) /\
                                  fv_IsRepeated fv = isRepeated f)
                     (message_Field m) (mv_Fields mv))
          (file_MessageType file) (pf_Messages pf) /\
  Forall2 (fun s sv => sv_Name sv = service_Name s /\
                       sv_Package sv = file_Package file /\
                       map sm_Name (sv_Methods sv) = map method_Name (service_Method s))
          (file_Service file) (pf_Services pf).
Proof.
  intros (_ & He & Hm & Hs & _)%(buildFile_shape TypeName importEntry). split; [|split].
  - rewrite He, map_map. reflexivity.
  - eapply Forall2_impl; [exact Hm|]. intros m mv (d & fvs & Hfvs & ->).
    split; [reflexivity|]. cbn [mv_Fields]. apply mapM_Some_1 in Hfvs.
    eapply Forall2_impl; [exact Hfvs|]. intros f fv Hfv. unfold fieldValuesOf in Hfv.
    destruct (camelCase (field_Name f)) as [cased|]; [|discriminate].
    cbn in Hfv. injection Hfv as <-. by cbn.
  - eapply Forall2_impl; [exact Hs|]. intros s sv (d & ->). cbn.
    split; [reflexivity|]. split; [reflexivity|]. by rewrite map_map.
Qed.

End Runs.

(** * Further properties, one by one *)

(** X1: [camelCase] returns exactly on the names none of whose segments
    after the first is empty. *)
Theorem camelCase_succeeds_iff (s : string) :
  is_Some (camelCase s) <-> ~ In "" (List.tail (Strings.Split s "_")).
Proof.
  rewrite <- camelCase_None_iff. destruct (camelCase s) as [r|].
  - split; [discriminate|]. intros _. by exists r.
  - split; [by intros [r Hr]|]. intros H. by destruct H.
Qed.

(** X2: a name without underscore is its own camel-case form. *)
Theorem camelCase_fixes_names_without_underscore (s : string) :
  no_byte "_" s = true -> camelCase s = Some s.
Proof. apply camelCase_plain. Qed.

(** X3: the camel-case form of a name has no underscore, and is its own
    camel-case form: casing twice changes nothing, and a name and its
    camel-case form are cased alike. *)
Theorem camelCase_is_idempotent (s r : string) :
  camelCase s = Some r -> no_byte "_" r = true /\ camelCase r = Some r.
Proof.
  intros H. pose proof (camelCase_result_has_no_underscore s r H) as Hr.
  split; [done|]. by apply camelCase_plain.
Qed.

(** X4: one more segment at the end of a name adds that segment, its
    first byte in upper case, to the camel-case form; when the segment is
    empty the casing panics. *)
Theorem camelCase_appends_a_segment (s p : string) :
  no_byte "_" p = true ->
  camelCase (s +:+ "_" +:+ p) =
  match camelCase s, upperCaseFirst p with
  | Some r, Some u => Some (r +:+ u)
  | _, _ => None
  end.
Proof.
  intros Hp. rewrite (camelCase_snoc s p Hp).
  destruct (camelCase s); [|reflexivity]. cbn. by destruct (upperCaseFirst p).
Qed.

(** X5: what [removePkg] makes of a name depends on its dots: a name
    without dot stays, of a name with one dot the part after the dot
    stays, and a name with two dots or more loses what comes before the
    second dot and has the later dots replaced by underscores. *)
Theorem removePkg_by_dots (a b rest : string) :
  no_byte "." a = true -> no_byte "." b = true ->
  removePkg a = a /\
  removePkg (a +:+ "." +:+ b) = b /\
  removePkg (a +:+ "." +:+ b +:+ "." +:+ rest) = Strings.Join (Strings.Split rest ".") "_".
Proof.
  intros Ha Hb. split; [by apply removePkg_plain|].
  split; [by apply removePkg_one_dot|by apply removePkg_two_dots].
Qed.

(** X6: the result of [removePkg] has no dot, and [removePkg] leaves it
    as it is. *)
Theorem removePkg_is_idempotent (s : string) :
  no_byte "." (removePkg s) = true /\ removePkg (removePkg s) = removePkg s.
Proof.
  pose proof (removePkg_has_no_dot s) as H. split; [done|]. by apply removePkg_plain.
Qed.

(** X7: in a package of one segment, a field of the type of an enum
    nested in a message gets the very name under which the pass models
    that nested enum. *)
Theorem nested_enum_reference_matches_its_model
    (file : FileDescriptorProto) (m m' : DescriptorProto) (enum : EnumDescriptorProto)
    (f : FieldDescriptorProto) :
  no_byte "." (file_Package file) = true ->
  no_byte "." (message_Name m) = true ->
  no_byte "." (enum_Name enum) = true ->
  In enum (message_EnumType m) ->
  field_Type f = TYPE_ENUM ->
  field_TypeName f = fullTypeName file (message_Name m +:+ "." +:+ enum_Name enum) ->
  In (singularFieldType m' f) (map en_Name (nestedEnums m)).
Proof.
  intros Hpkg Hm He Hin Htype Hname. unfold singularFieldType. rewrite Htype, Hname.
  unfold fullTypeName.
  change ("." +:+ file_Package file +:+ "." +:+ message_Name m +:+ "." +:+ enum_Name enum)
    with ("" +:+ "." +:+ file_Package file +:+ "." +:+
          (message_Name m +:+ String "." (enum_Name enum))).
  rewrite (removePkg_two_dots "" (file_Package file) _ eq_refl Hpkg).
  rewrite (Split_app_sep _ "." _ Hm), (Split_no_byte _ "." He).
  rewrite nestedEnums_map, map_map. cbn [en_Name].
  apply in_map_iff. by exists enum.
Qed.

(** X8: the singular type of a field is never a qualified name: it has
    no dot, whatever the type and the type name of the field. *)
Theorem singularFieldType_is_never_qualified
    (m : DescriptorProto) (f : FieldDescriptorProto) :
  no_byte "." (singularFieldType m f) = true.
Proof. apply singularFieldType_has_no_dot. Qed.

(** X9: a message named [Date] of a package of one segment gets the
    singular type that marks the well-known Timestamp, and a field with
    that type is rendered as a string. *)
Theorem message_named_Date_is_taken_for_Timestamp
    (pkg : string) (m : DescriptorProto) (f : FieldDescriptorProto) (fv : fieldValues) :
  no_byte "." pkg = true ->
  field_Type f = TYPE_MESSAGE ->
  field_TypeName f = "." +:+ pkg +:+ ".Date" ->
  fv_Type fv = singularFieldType m f ->
  singularFieldType m f = "Date" /\
  fieldType fv = (if fv_IsRepeated fv then "string[]" else "string").
Proof.
  intros Hpkg Htype Hname Hfv.
  assert (singularFieldType m f = "Date") as Hs.
  { unfold singularFieldType. rewrite Htype, Hname.
    destruct (String.eqb _ _); [reflexivity|].
    by apply (removePkg_one_segment pkg "Date"). }
  split; [done|]. apply fieldType_Date. congruence.
Qed.

(** X10: whatever the type of a field model, the type rendered for it is
    never [Date], nor [Date[]] for a repeated field. *)
Theorem fieldType_is_never_Date (f : fieldValues) :
  fieldType f <> "Date" /\ (fv_IsRepeated f = true -> fieldType f <> "Date[]").
Proof. apply fieldType_not_Date. Qed.

(** X11: the directory of a package whose segments are not empty and
    have neither dot nor slash is made of these segments, joined by
    slashes; it is empty for the empty package. *)
Theorem tsImportPath_of_package (fd : FileDescriptorProto) (segs : list string) :
  file_Package fd = Strings.Join segs "." ->
  Forall (fun s => package_segment s = true) segs ->
  tsImportPath fd = Strings.Join segs "/".
Proof. apply tsImportPath_segments. Qed.

(** X12: the relative import base climbs one directory for every segment
    of the package, and one directory for the empty package as well. *)
Theorem relativeImportBase_of_package (fd : FileDescriptorProto) (segs : list string) :
  file_Package fd = Strings.Join segs "." ->
  Forall (fun s => package_segment s = true) segs ->
  relativeImportBase fd = Strings.Repeat "../" (max 1 (length segs)).
Proof. apply relativeImportBase_segments. Qed.

(** X13: the output path of a file is the directory of its package
    followed by the base name of the file with its extension replaced by
    [.ts]. *)
Theorem tsFileName_of_package (fd : FileDescriptorProto) (segs : list string) :
  file_Package fd = Strings.Join segs "." ->
  Forall (fun s => package_segment s = true) segs ->
  no_byte "/" (stem fd) = true ->
  tsFileName fd = Strings.Join (segs ++ [stem fd +:+ ".ts"]) "/".
Proof. apply tsFileName_segments. Qed.

(** X14: the name under which the index of a package exports a generated
    file is the base name of the schema file without its extension. *)
Theorem index_exports_the_stem
    (pf : protoFile) (fd : FileDescriptorProto) (segs : list string) :
  pf_Output pf = tsFileName fd ->
  file_Package fd = Strings.Join segs "." ->
  Forall (fun s => package_segment s = true) segs ->
  no_byte "/" (stem fd) = true ->
  exportOf pf = stem fd.
Proof. apply exportOf_tsFileName. Qed.

(** X15: the import name of a package of several segments is the package
    without its last segment; of a package of one segment it is that
    segment. *)
Theorem importName_drops_the_last_segment
    (fp : FileDescriptorProto) (init : list string) (last : string) :
  file_Package fp = Strings.Join (init ++ [last]) "." ->
  Forall (fun s => package_segment s = true) (init ++ [last]) ->
  importName fp = Some (match init with [] => last | _ => Strings.Join init "." end).
Proof. intros Hpkg Hall. unfold importName. rewrite Hpkg. by apply tsImportName_segments. Qed.

(** X16: the slice of [tsImportName] is never out of range: the extension
    of the base name is not longer than the base name. *)
Theorem tsImportName_never_panics (name : string) :
  is_Some (tsImportName name) /\
  String.length (Path.Ext (Path.Base name)) <= String.length (Path.Base name).
Proof. split; [apply tsImportName_total|apply Ext_length]. Qed.

(** X17: [objectToField] never panics, although [upperCaseFirst] does on
    the empty string, and reads a field of type [Date] exactly as a field
    of type [string]. *)
Theorem objectToField_never_panics (fv : fieldValues) :
  is_Some (objectToField fv) /\
  upperCaseFirst "" = None /\
  (fv_Type fv = "Date" ->
   objectToField fv =
   objectToField {| fv_Name := fv_Name fv; fv_Field := fv_Field fv; fv_Type := "string";
                    fv_IsEnum := fv_IsEnum fv; fv_IsRepeated := fv_IsRepeated fv |}).
Proof.
  split; [apply objectToField_total|]. split; [reflexivity|].
  intros H. unfold objectToField. cbn [fv_Type fv_Name fv_IsRepeated]. by rewrite H.
Qed.

(** X18: the three names that the pass declares for a message, its own
    and those of its two interfaces, are three different keys of the
    registry. *)
Theorem message_declares_three_distinct_names
    (file : FileDescriptorProto) (m : DescriptorProto) :
  NoDup (map (fullTypeName file) (messageNames m)) /\
  length (map (fullTypeName file) (messageNames m)) = 3.
Proof.
  split; [|reflexivity]. apply NoDup_fmap_2; [|apply messageNames_NoDup].
  intros a b. apply fullTypeName_inj.
Qed.

(** * The further properties on concrete inputs *)

(** X2 on the name [qty]. *)
Lemma camelCase_fixes_names_witness :
  no_byte "_" "qty" = true /\ camelCase "qty" = Some "qty".
Proof.
  split; [reflexivity|]. apply (camelCase_fixes_names_without_underscore "qty"). reflexivity.
Defined.

(** X3 on the name [created_at]. *)
Lemma camelCase_is_idempotent_witness :
  camelCase "created_at" = Some "createdAt" /\
  no_byte "_" "createdAt" = true /\ camelCase "createdAt" = Some "createdAt".
Proof.
  split; [reflexivity|]. apply (camelCase_is_idempotent "created_at" "createdAt"). reflexivity.
Defined.

(** X4 on the names [user_id] and [user_]. *)
Lemma camelCase_appends_a_segment_witness :
  no_byte "_" "id" = true /\ camelCase "user_id" = Some "userId" /\
  no_byte "_" "" = true /\ camelCase "user_" = None.
Proof.
  split; [reflexivity|]. split; [exact (camelCase_appends_a_segment "user" "id" eq_refl)|].
  split; [reflexivity|]. exact (camelCase_appends_a_segment "user" "" eq_refl).
Defined.

(** X5 on the names [shop], [.shop] and [.shop.Order.Status]. *)
Lemma removePkg_by_dots_witness :
  no_byte "." "" = true /\ no_byte "." "shop" = true /\
  removePkg "" = "" /\
  removePkg ".shop" = "shop" /\
  removePkg ".shop.Order.Status" = "Order_Status".
Proof.
  split; [reflexivity|]. split; [reflexivity|].
  exact (removePkg_by_dots "" "shop" "Order.Status" eq_refl eq_refl).
Defined.

(** X7 on the field [status] of the message [Order], whose type is the
    enum [Status] nested in [Order]. *)
Lemma nested_enum_reference_witness :
  In Requests.status_enum (message_EnumType Sample.order_message) /\
  field_TypeName Requests.status_field =
    fullTypeName Sample.file_nested ("Order" +:+ "." +:+ "Status") /\
  In (singularFieldType Sample.order_message Requests.status_field)
     (map en_Name (nestedEnums Sample.order_message)).
Proof.
  split; [left; reflexivity|]. split; [reflexivity|].
  apply (nested_enum_reference_matches_its_model Sample.file_nested Sample.order_message
           Sample.order_message Requests.status_enum Requests.status_field);
    try reflexivity.
  left; reflexivity.
Defined.

(** X9 on a field of the type [.shop.Date]. *)
Lemma message_named_Date_witness :
  no_byte "." "shop" = true /\
  field_TypeName Requests.when_field = "." +:+ "shop" +:+ ".Date" /\
  singularFieldType Sample.order_message Requests.when_field = "Date" /\
  fieldType Requests.when_model = "string".
Proof.
  split; [reflexivity|]. split; [reflexivity|].
  apply (message_named_Date_is_taken_for_Timestamp "shop" Sample.order_message
           Requests.when_field Requests.when_model); reflexivity.
Defined.

(** X11 on the package [shop.v1]. *)
Lemma tsImportPath_of_package_witness :
  file_Package Sample.shop_v1 = Strings.Join ["shop"; "v1"] "." /\
  tsImportPath Sample.shop_v1 = "shop/v1".
Proof.
  split; [reflexivity|].
  apply (tsImportPath_of_package Sample.shop_v1 ["shop"; "v1"]); [reflexivity|].
  repeat constructor.
Defined.

(** X12 on the package [shop.v1]. *)
Lemma relativeImportBase_of_package_witness :
  file_Package Sample.shop_v1 = Strings.Join ["shop"; "v1"] "." /\
  relativeImportBase Sample.shop_v1 = "../../".
Proof.
  split; [reflexivity|].
  apply (relativeImportBase_of_package Sample.shop_v1 ["shop"; "v1"]); [reflexivity|].
  repeat constructor.
Defined.

(** X13 on the file [shop/v1/item.proto] of the package [shop.v1]. *)
Lemma tsFileName_of_package_witness :
  no_byte "/" (stem Sample.shop_v1) = true /\
  tsFileName Sample.shop_v1 = "shop/v1/item.ts".
Proof.
  split; [reflexivity|].
  apply (tsFileName_of_package Sample.shop_v1 ["shop"; "v1"]);
    [reflexivity|repeat constructor|reflexivity].
Defined.

(** X14 on the empty model of the file [shop/v1/item.proto]. *)
Lemma index_exports_the_stem_witness :
  pf_Output (new_file Sample.shop_v1) = tsFileName Sample.shop_v1 /\
  exportOf (new_file Sample.shop_v1) = "item".
Proof.
  split; [reflexivity|].
  apply (index_exports_the_stem (new_file Sample.shop_v1) Sample.shop_v1 ["shop"; "v1"]);
    [reflexivity|reflexivity|repeat constructor|reflexivity].
Defined.

(** X15 on the packages [shop.v1] and [shop]. *)
Lemma importName_witness :
  importName Sample.shop_v1 = Some "shop" /\ importName Sample.file_nested = Some "shop".
Proof.
  split.
  - apply (importName_drops_the_last_segment Sample.shop_v1 ["shop"] "v1"); [reflexivity|].
    repeat constructor.
  - apply (importName_drops_the_last_segment Sample.file_nested [] "shop"); [reflexivity|].
    repeat constructor.
Defined.

(** X19 on the request of four files, one of which holds a message with
    nested messages. *)
Lemma log_of_a_run_witness :
  exists res log,
    generates Sample.TypeName Sample.importEntry Sample.twirpFileName Sample.twirpSource
      Sample.Compile_file Sample.Compile_index Requests.request_mixed res log /\
    log = nested_warning :: map (fun f => "wrote: " +:+ rf_Name f) (File res).
Proof.
  assert (exists res log,
             generates Sample.TypeName Sample.importEntry Sample.twirpFileName
               Sample.twirpSource Sample.Compile_file Sample.Compile_index
               Requests.request_mixed res log) as (res & log & Hrun).
  { eexists _, _. exists Sample.range_up. eexists.
    split; [intros m; reflexivity|]. split; [vm_compute; reflexivity|reflexivity]. }
  exists res, log. split; [exact Hrun|].
  exact (log_of_a_run _ _ _ _ _ _ _ _ _ Hrun).
Defined.

(** X20 on the request of two packages, iterated in both orders. *)
Lemma runs_return_the_same_files_witness :
  exists res1 log1 res2 log2,
    generates Sample.TypeName Sample.importEntry Sample.twirpFileName Sample.twirpSource
      Sample.Compile_file Sample.Compile_index Sample.request_ab res1 log1 /\
    generates Sample.TypeName Sample.importEntry Sample.twirpFileName Sample.twirpSource
      Sample.Compile_file Sample.Compile_index Sample.request_ab res2 log2 /\
    res1 <> res2 /\
    Permutation (File res1) (File res2) /\ Permutation log1 log2.
Proof.
  assert (exists res log,
             generates Sample.TypeName Sample.importEntry Sample.twirpFileName
               Sample.twirpSource Sample.Compile_file Sample.Compile_index
               Sample.request_ab res log /\
             map rf_Name (File res) =
             ["twirp.ts"; "b/b.ts"; "b/index.ts"; "a/a.ts"; "a/index.ts"])
    as (res1 & log1 & Hrun1 & Hnames1).
  { eexists _, _. split.
    - exists Sample.range_down. eexists.
      split; [intros m; symmetry; apply Permutation_rev|].
      split; [vm_compute; reflexivity|reflexivity].
    - vm_compute. reflexivity. }
  assert (exists res log,
             generates Sample.TypeName Sample.importEntry Sample.twirpFileName
               Sample.twirpSource Sample.Compile_file Sample.Compile_index
               Sample.request_ab res log /\
             map rf_Name (File res) =
             ["twirp.ts"; "a/a.ts"; "a/index.ts"; "b/b.ts"; "b/index.ts"])
    as (res2 & log2 & Hrun2 & Hnames2).
  { eexists _, _. split.
    - exists Sample.range_up. eexists.
      split; [intros m; reflexivity|]. split; [vm_compute; reflexivity|reflexivity].
    - vm_compute. reflexivity. }
  exists res1, log1, res2, log2. split; [exact Hrun1|]. split; [exact Hrun2|].
  split; [intros E; rewrite E, Hnames2 in Hnames1; discriminate|].
  exact (runs_return_the_same_files _ _ _ _ _ _ _ _ _ _ _ Hrun1 Hrun2).
Defined.

(** X21 on the request of four files of three package directories. *)
Lemma response_names_witness :
  exists res log,
    generates Sample.TypeName Sample.importEntry Sample.twirpFileName Sample.twirpSource
      Sample.Compile_file Sample.Compile_index Requests.request_mixed res log /\
    exists order,
      NoDup order /\
      (forall p, In p order <-> In p ["shop"; "x"; "a"; "x"]) /\
      map rf_Name (File res) =
      "twirp.ts" ::
      concat (map (fun p => map tsFileName
                              (List.filter (fun file => String.eqb (tsImportPath file) p)
                                           (ProtoFile Requests.request_mixed))
                            ++ [Path.Join [p; "index.ts"]]) order).
Proof.
  assert (exists res log,
             generates Sample.TypeName Sample.importEntry Sample.twirpFileName
               Sample.twirpSource Sample.Compile_file Sample.Compile_index
               Requests.request_mixed res log) as (res & log & Hrun).
  { eexists _, _. exists Sample.range_up. eexists.
    split; [intros m; reflexivity|]. split; [vm_compute; reflexivity|reflexivity]. }
  exists res, log. split; [exact Hrun|].
  exact (response_names _ _ _ _ _ _ _ _ _ Hrun).
Defined.

(** X22 on the same request: eight files, the run-time file, four
    generated files and three indexes. *)
Lemma response_size_witness :
  exists res log,
    generates Sample.TypeName Sample.importEntry Sample.twirpFileName Sample.twirpSource
      Sample.Compile_file Sample.Compile_index Requests.request_mixed res log /\
    length (File res) =
    1 + 4 + size (list_to_set (map tsImportPath (ProtoFile Requests.request_mixed))
                  : gset string).
Proof.
  assert (exists res log,
             generates Sample.TypeName Sample.importEntry Sample.twirpFileName
               Sample.twirpSource Sample.Compile_file Sample.Compile_index
               Requests.request_mixed res log) as (res & log & Hrun).
  { eexists _, _. exists Sample.range_up. eexists.
    split; [intros m; reflexivity|]. split; [vm_compute; reflexivity|reflexivity]. }
  exists res, log. split; [exact Hrun|].
  exact (response_size _ _ _ _ _ _ _ _ _ Hrun).
Defined.

(** X23 on the two files of the package directory [x], iterated in both
    orders. *)
Lemma single_package_witness :
  Forall (fun file => tsImportPath file = "x") (ProtoFile Requests.request_x) /\
  exists res1 log1 res2 log2,
    generates Sample.TypeName Sample.importEntry Sample.twirpFileName Sample.twirpSource
      Sample.Compile_file Sample.Compile_index Requests.request_x res1 log1 /\
    generates Sample.TypeName Sample.importEntry Sample.twirpFileName Sample.twirpSource
      Sample.Compile_file Sample.Compile_index Requests.request_x res2 log2 /\
    res1 = res2 /\ log1 = log2.
Proof.
  assert (Forall (fun file => tsImportPath file = "x") (ProtoFile Requests.request_x))
    as Hall by (repeat constructor).
  split; [exact Hall|].
  assert (exists res log,
             generates Sample.TypeName Sample.importEntry Sample.twirpFileName
               Sample.twirpSource Sample.Compile_file Sample.Compile_index
               Requests.request_x res log) as (res1 & log1 & Hrun1).
  { eexists _, _. exists Sample.range_up. eexists.
    split; [intros m; reflexivity|]. split; [vm_compute; reflexivity|reflexivity]. }
  assert (exists res log,
             generates Sample.TypeName Sample.importEntry Sample.twirpFileName
               Sample.twirpSource Sample.Compile_file Sample.Compile_index
               Requests.request_x res log) as (res2 & log2 & Hrun2).
  { eexists _, _. exists Sample.range_down. eexists.
    split; [intros m; symmetry; apply Permutation_rev|].
    split; [vm_compute; reflexivity|reflexivity]. }
  exists res1, log1, res2, log2. split; [exact Hrun1|]. split; [exact Hrun2|].
  exact (single_package_is_deterministic _ _ _ _ _ _ "x" _ _ _ _ _ Hall Hrun1 Hrun2).
Defined.

(** X24 on the file [b.proto]: one message of three fields and one
    service of one method. *)
Lemma file_model_witness :
  exists pf st',
    buildFile Sample.TypeName Sample.importEntry Sample.file_b initial_state = Ok (pf, st') /\
    map (fun mv => map fv_Field (mv_Fields mv)) (pf_Messages pf) =
      [["firstFoo"; "secondFoo"; "next"]] /\
    map en_Name (pf_Enums pf) = map enum_Name (file_EnumType Sample.file_b) /\
    Forall2 (fun m mv =>
               mv_Name mv = message_Name m /\
               Forall2 (fun f fv => fv_Name fv = field_Name f /\
                                    camelCase (field_Name f) = Some (fv_Field fv) /\
                                    fv_IsRepeated fv = isRepeated f)
                       (message_Field m) (mv_Fields mv))
            (file_MessageType Sample.file_b) (pf_Messages pf) /\
    Forall2 (fun s sv => sv_Name sv = service_Name s /\
                         sv_Package sv = file_Package Sample.file_b /\
                         map sm_Name (sv_Methods sv) = map method_Name (service_Method s))
            (file_Service Sample.file_b) (pf_Services pf).
Proof.
  eexists _, _. split; [vm_compute; reflexivity|]. split; [vm_compute; reflexivity|].
  eapply (file_model_mirrors_the_declarations Sample.TypeName Sample.importEntry
            Sample.file_b initial_state).
  vm_compute. reflexivity.
Defined.

(** X10 on the repeated field [created_at] of type [Date]. *)
Lemma fieldType_is_never_Date_witness :
  fv_IsRepeated (Sample.created_at true) = true /\
  fieldType (Sample.created_at true) <> "Date" /\
  fieldType (Sample.created_at true) <> "Date[]".
Proof.
  split; [reflexivity|].
  destruct (fieldType_is_never_Date (Sample.created_at true)) as [H1 H2].
  split; [exact H1|]. apply H2. reflexivity.
Defined.

(** X17 on the repeated field [created_at] of type [Date], read as a
    list of strings. *)
Lemma objectToField_witness :
  fv_Type (Sample.created_at true) = "Date" /\
  is_Some (objectToField (Sample.created_at true)) /\
  objectToField (Sample.created_at true) =
  objectToField {| fv_Name := "created_at"; fv_Field := "createdAt"; fv_Type := "string";
                   fv_IsEnum := false; fv_IsRepeated := true |} /\
  objectToField (Sample.created_at true) =
  Some "(m['created_at']! || []).map((v) => { return String(v)})".
Proof.
  split; [reflexivity|].
  destruct (objectToField_never_panics (Sample.created_at true)) as (H1 & _ & H2).
  split; [exact H1|]. split; [apply H2; reflexivity|reflexivity].
Defined.
